(** * The config-entry HTTP endpoint of the agent

    A shallow embedding of [agent/config_endpoint.go]: the method switch
    [Config], the handlers [configGet], [configDelete] and [ConfigApply], and
    the two decoders [decodeConfigBody] and [decodeConfigEntry].

    The file is glue code.  What it calls and does not define (the [structs]
    package, the [mapstructure] decoder, [encoding/json], the server's request
    parsing and the agent's RPC) enters as interfaces, one type class per
    package; the handlers are written over a state that holds the response
    writer and the trace of backend calls. *)

From Stdlib Require Import ZArith Ascii String.
From Stdlib Require Import Floats.PrimFloat Floats.SpecFloat Floats.FloatOps.
From Stdlib Require Import Numbers.Cyclic.Int63.Uint63.
From Stdlib Require Import Numbers.DecimalString Numbers.DecimalNat.
From stdpp Require Import base option strings gmap list.

Set Warnings "-register-all".

(** ** Go's [strings] package, as far as the endpoint uses it

    Go strings are byte sequences, and so are Rocq's. *)

Module GoStrings.

(** [s[n:]] *)
Fixpoint skip (n : nat) (s : string) : string :=
  match n, s with
  | O, _ => s
  | S n', String _ s' => skip n' s'
  | S _, EmptyString => EmptyString
  end.

(** [s[:n]] *)
Fixpoint keep (n : nat) (s : string) : string :=
  match n, s with
  | O, _ => EmptyString
  | S n', String c s' => String c (keep n' s')
  | S _, EmptyString => EmptyString
  end.

Fixpoint HasPrefix (s prefix : string) {struct prefix} : bool :=
  match prefix, s with
  | EmptyString, _ => true
  | String _ _, EmptyString => false
  | String c prefix', String d s' => Ascii.eqb d c && HasPrefix s' prefix'
  end.

Definition TrimPrefix (s prefix : string) : string :=
  if HasPrefix s prefix then skip (String.length prefix) s else s.

(** [Index] is the byte offset of the first instance of [substr] in [s],
    or -1. *)
Fixpoint Index (s substr : string) : Z :=
  if HasPrefix s substr then 0%Z
  else match s with
       | EmptyString => (-1)%Z
       | String _ s' =>
           let m := Index s' substr in
           if (m <? 0)%Z then (-1)%Z else (m + 1)%Z
       end.

(** [Count] for a non-empty [substr]: the loop of the library, run on the
    length of [s] as fuel (each round consumes at least one byte). *)
Fixpoint Count_loop (fuel : nat) (s substr : string) (n : Z) : Z :=
  match fuel with
  | O => n
  | S fuel' =>
      let i := Index s substr in
      if (i =? -1)%Z then n
      else Count_loop fuel' (skip (Z.to_nat i + String.length substr) s)
             substr (n + 1)%Z
  end.

Definition Count (s substr : string) : Z :=
  if String.eqb substr "" then (Z.of_nat (String.length s) + 1)%Z
  else Count_loop (S (String.length s)) s substr 0%Z.

(** [explode] cuts a string into its characters, at most [n] pieces.  The
    library cuts at UTF-8 sequences; the model cuts at bytes, which is the
    same on ASCII.  The endpoint never takes this branch: it splits on "/". *)
Fixpoint explode_loop (n : nat) (s : string) : list string :=
  match n, s with
  | O, _ => []
  | S O, _ => [s]
  | S n', String c s' => String c EmptyString :: explode_loop n' s'
  | S _, EmptyString => []
  end.

Definition explode (s : string) (n : Z) : list string :=
  let l := Z.of_nat (String.length s) in
  let n := if ((n <? 0) || (l <? n))%Z then l else n in
  explode_loop (Z.to_nat n) s.

(** The loop of [genSplit]: [n] is the number of cuts still allowed. *)
Fixpoint genSplit_loop (n : nat) (s sep : string) (sepSave : nat) : list string :=
  match n with
  | O => [s]
  | S n' =>
      let m := Index s sep in
      if (m <? 0)%Z then [s]
      else keep (Z.to_nat m + sepSave) s
             :: genSplit_loop n' (skip (Z.to_nat m + String.length sep) s) sep sepSave
  end.

Definition genSplit (s sep : string) (sepSave : nat) (n : Z) : list string :=
  if (n =? 0)%Z then []
  else if String.eqb sep "" then explode s n
  else
    let n := if (n <? 0)%Z then (Count s sep + 1)%Z else n in
    genSplit_loop (Z.to_nat (n - 1)) s sep sepSave.

Definition SplitN (s sep : string) (n : Z) : list string := genSplit s sep 0 n.

(** ['/'] does not occur in [s]. *)
Definition slash_free (s : string) : Prop := "/"%char ∉ list_ascii_of_string s.

End GoStrings.

Import GoStrings.

(** ** Values of type [interface{}] as [encoding/json] produces them

    A JSON document decoded into [map[string]interface{}] holds [nil],
    [bool], [float64], [string], [[]interface{}] and nested maps. *)

Inductive value : Type :=
  | VNil
  | VBool (b : bool)
  | VFloat64 (f : float)
  | VString (s : string)
  | VSlice (l : list value)
  | VMap (m : gmap string value).

(** The comma-ok map index [v, ok := m[k]]: a missing key reads as the zero
    value, here the nil interface. *)
Definition map_index (m : gmap string value) (k : string) : value * bool :=
  match m !! k with
  | Some v => (v, true)
  | None => (VNil, false)
  end.

(** The discriminator of a raw mapping in the words of the specification:
    the value under "Kind", or under "kind" if "Kind" is absent. *)
Definition discriminator (raw : gmap string value) : option value :=
  match raw !! "Kind" with
  | Some v => Some v
  | None => raw !! "kind"
  end.

(** The comma-ok type assertion [v.(string)]. *)
Definition assert_string (v : value) : string * bool :=
  match v with
  | VString s => (s, true)
  | _ => (EmptyString, false)
  end.

(** ** Errors

    The error values the endpoint builds or passes on.  [errorString] stands
    for every error made by [fmt.Errorf] or [errors.New], here and in the
    libraries: such an error is its message. *)

Inductive error : Type :=
  | EOF
  | errorString (msg : string)
  | MethodNotAllowedError (Method : string) (Allow : list string)
  | BadRequestError (Reason : string).

#[global] Instance error_eq_dec : EqDecision error.
Proof. solve_decision. Defined.

(** ** Requests and the response writer *)

Record Request : Type := mkRequest {
  Method : string;
  URL_Path : string;
  URL_RawQuery : string;
  Header : gmap string (list string);
  Body : option string
}.

(** [http.ResponseWriter], as a recorder: the status code once written, and
    the bytes of the body. *)
Record ResponseWriter : Type := mkResponseWriter {
  Code : option Z;
  Written : string
}.

Definition StatusBadRequest : Z := 400.
Definition StatusOK : Z := 200.

Definition rw_WriteHeader (code : Z) (w : ResponseWriter) : ResponseWriter :=
  match Code w with
  | Some _ => w
  | None => mkResponseWriter (Some code) (Written w)
  end.

Definition rw_Write (s : string) (w : ResponseWriter) : ResponseWriter :=
  let w := rw_WriteHeader StatusOK w in
  mkResponseWriter (Code w) (Written w +:+ s).

(** ** Package [structs]

    [agent/structs] is another package of the repository.  The endpoint uses the
    interface type [ConfigEntry], the factory [MakeConfigEntry], the operation
    constant [ConfigEntryUpsert], and the request and reply structs; a Go
    pair [(v, err)] is a pair of options, [None] being [nil]. *)

Class Structs : Type := {
  ConfigEntry : Type;
  ConfigEntryOp : Type;
  ConfigEntryOp_zero : ConfigEntryOp;
  ConfigEntryUpsert : ConfigEntryOp;
  QueryOptions : Type;
  QueryOptions_zero : QueryOptions;
  IndexedConfigEntries : Type;
  IndexedConfigEntries_zero : IndexedConfigEntries;
  MakeConfigEntry : string → string → option ConfigEntry * option error
}.

Module ConfigEntryQuery.

Section Fields.

Context `{Structs}.

Record t : Type := mk {
  Kind : string;
  Name : string;
  Datacenter : string;
  Options : QueryOptions
}.

Definition zero : t := mk "" "" "" QueryOptions_zero.

Definition set_Kind (v : string) (a : t) : t :=
  mk v (Name a) (Datacenter a) (Options a).

Definition set_Name (v : string) (a : t) : t :=
  mk (Kind a) v (Datacenter a) (Options a).

Definition set_Datacenter (v : string) (a : t) : t :=
  mk (Kind a) (Name a) v (Options a).

Definition set_Options (v : QueryOptions) (a : t) : t :=
  mk (Kind a) (Name a) (Datacenter a) v.

End Fields.

End ConfigEntryQuery.

Module ConfigEntryRequest.

Section Fields.

Context `{Structs}.

Record t : Type := mk {
  Op : ConfigEntryOp;
  Datacenter : string;
  Entry : option ConfigEntry;
  Token : string
}.

Definition zero : t := mk ConfigEntryOp_zero "" None "".

Definition set_Datacenter (v : string) (a : t) : t :=
  mk (Op a) v (Entry a) (Token a).

Definition set_Entry (v : option ConfigEntry) (a : t) : t :=
  mk (Op a) (Datacenter a) v (Token a).

Definition set_Token (v : string) (a : t) : t :=
  mk (Op a) (Datacenter a) (Entry a) v.

End Fields.

End ConfigEntryRequest.

(** The arguments and the reply of a backend call are [interface{}] in Go;
    the endpoint passes these. *)
Inductive RPCArgs `{Structs} : Type :=
  | QueryArgs (q : ConfigEntryQuery.t)
  | RequestArgs (r : ConfigEntryRequest.t).

Inductive RPCReply `{Structs} : Type :=
  | IndexedReply (r : IndexedConfigEntries)
  | EmptyReply.

(** ** Package [mapstructure]

    [Result] of the decoder configuration points at the local variable
    [entry]; the model passes the value of that variable in, and [Decode]
    hands back the value it holds afterwards together with the error.
    [NewDecoder] yields a decoder or an error, never both and never neither. *)

Record DecoderConfig (H E : Type) : Type := mkDecoderConfig {
  DecodeHook : H;
  Result : option E
}.

Arguments mkDecoderConfig {H E} _ _.
Arguments DecodeHook {H E} _.
Arguments Result {H E} _.

Class Mapstructure `{Structs} : Type := {
  DecodeHookFunc : Type;
  ComposeDecodeHookFunc : list DecodeHookFunc → DecodeHookFunc;
  StringToTimeDurationHookFunc : DecodeHookFunc;
  Decoder : Type;
  NewDecoder : DecoderConfig DecodeHookFunc ConfigEntry → error + Decoder;
  Decoder_Decode : Decoder → gmap string value → option ConfigEntry * option error
}.

(** ** Package [encoding/json]: [json.NewDecoder(r).Decode(&raw)] on the bytes
    the reader yields; the result is the map [raw] holds afterwards. *)

Class Json : Type := {
  json_Decode : string → gmap string value * option error
}.

(** ** The rest of package [agent]

    Request parsing ([parse], [parseDC], [parseToken], [decodeBody]), the
    decode hook [stringToReadableDurationFunc] and the agent's [RPC] are
    defined in other files of the package, and so are the [Error] methods of
    the two HTTP error structs.  [parse] may answer the request itself: it
    gets the response writer and says whether it is done. *)

Class Agent `{Mapstructure} : Type := {
  parse : ResponseWriter → Request → string → QueryOptions →
          ResponseWriter * (string * QueryOptions) * bool;
  parseDC : Request → string → string;
  parseToken : Request → string → string;
  decodeBody : Request → gmap string value * option error;
  stringToReadableDurationFunc : DecodeHookFunc;
  MethodNotAllowedError_Error : string → list string → string;
  BadRequestError_Error : string → string;
  RPC : string → RPCArgs → RPCReply → RPCReply * option error
}.

(** ** The handlers *)

Section Endpoint.

Context `{Agent} `{Json}.

(** What a handler can change: the response, and the backend, which the
    model sees as the list of calls made so far. *)
Record World : Type := mkWorld {
  resp : ResponseWriter;
  calls : list (string * RPCArgs)
}.

Definition M (A : Type) : Type := World → A * World.

#[local] Instance M_ret : MRet M := λ A a w, (a, w).

#[local] Instance M_bind : MBind M := λ A B f m w, let '(a, w') := m w in f a w'.

Definition resp_WriteHeader (code : Z) : M unit :=
  λ w, (tt, mkWorld (rw_WriteHeader code (resp w)) (calls w)).

Definition Fprintf (s : string) : M unit :=
  λ w, (tt, mkWorld (rw_Write s (resp w)) (calls w)).

Definition s_parse (req : Request) (dc : string) (opts : QueryOptions)
  : M (string * QueryOptions * bool) :=
  λ w, let '(rw, out, done) := parse (resp w) req dc opts in
       ((out, done), mkWorld rw (calls w)).

Definition s_agent_RPC (method : string) (args : RPCArgs) (reply : RPCReply)
  : M (RPCReply * option error) :=
  λ w, (RPC method args reply, mkWorld (resp w) (calls w ++ [(method, args)])).

(** [err.Error()], which is what [%v] prints of an error. *)
Definition Error (e : error) : string :=
  match e with
  | EOF => "EOF"
  | errorString msg => msg
  | MethodNotAllowedError m allow => MethodNotAllowedError_Error m allow
  | BadRequestError r => BadRequestError_Error r
  end.

(** What [configGet] and [configDelete] make of a backend call: the error
    if there is one, else the reply. *)
Definition reply_or_error (r : RPCReply * option error)
  : option RPCReply * option error :=
  match r.2 with
  | Some e => (None, Some e)
  | None => (Some r.1, None)
  end.

Definition pathArgs (req : Request) : list string :=
  SplitN (TrimPrefix (URL_Path req) "/v1/config/") "/" 2.

(** [configGet] gets either a specific config entry, or lists all config
    entries of a kind if no name is provided. *)
Definition configGet (req : Request) : M (option RPCReply * option error) :=
  let args := ConfigEntryQuery.zero in
  '(dc, opts, done) ← s_parse req (ConfigEntryQuery.Datacenter args)
                        (ConfigEntryQuery.Options args);
  let args := ConfigEntryQuery.set_Options opts
                (ConfigEntryQuery.set_Datacenter dc args) in
  if done : bool then mret (None, None)
  else
    let pathArgs := pathArgs req in
    match length pathArgs with
    | 2 =>
        let args := ConfigEntryQuery.set_Kind (pathArgs !!! 0%nat) args in
        let args := ConfigEntryQuery.set_Name (pathArgs !!! 1%nat) args in
        let reply := IndexedReply IndexedConfigEntries_zero in
        '(reply, err) ← s_agent_RPC "ConfigEntry.Get" (QueryArgs args) reply;
        match err with
        | Some e => mret (None, Some e)
        | None => mret (Some reply, None)
        end
    | 1 =>
        let args := ConfigEntryQuery.set_Kind (pathArgs !!! 0%nat) args in
        let reply := IndexedReply IndexedConfigEntries_zero in
        '(reply, err) ← s_agent_RPC "ConfigEntry.List" (QueryArgs args) reply;
        match err with
        | Some e => mret (None, Some e)
        | None => mret (Some reply, None)
        end
    | _ =>
        resp_WriteHeader StatusBadRequest;;
        Fprintf "Must provide either a kind or both kind and name";;
        mret (None, None)
    end.

(** [configDelete] deletes the given config entry. *)
Definition configDelete (req : Request) : M (option RPCReply * option error) :=
  let args := ConfigEntryRequest.zero in
  let args := ConfigEntryRequest.set_Datacenter
                (parseDC req (ConfigEntryRequest.Datacenter args)) args in
  let args := ConfigEntryRequest.set_Token
                (parseToken req (ConfigEntryRequest.Token args)) args in
  let pathArgs := pathArgs req in
  if decide (length pathArgs ≠ 2) then
    resp_WriteHeader StatusBadRequest;;
    Fprintf "Must provide both a kind and name to delete";;
    mret (None, None)
  else
    let '(entry, err) := MakeConfigEntry (pathArgs !!! 0%nat) (pathArgs !!! 1%nat) in
    match err with
    | Some e =>
        resp_WriteHeader StatusBadRequest;;
        Fprintf (Error e);;
        mret (None, None)
    | None =>
        let args := ConfigEntryRequest.set_Entry entry args in
        let reply := EmptyReply in
        '(reply, err) ← s_agent_RPC "ConfigEntry.Delete" (RequestArgs args) reply;
        match err with
        | Some e => mret (None, Some e)
        | None => mret (Some reply, None)
        end
    end.

(** [decodeConfigBody] is used to decode a JSON request body.  A nil body
    is answered with [io.EOF] before the JSON decoder is built. *)
Definition decodeConfigBody (req : Request) : option ConfigEntry * option error :=
  match Body req with
  | None => (None, Some EOF)
  | Some body =>
      let '(raw, err) := json_Decode body in
      match err with
      | Some e => (None, Some e)
      | None =>
          let '(kindVal, ok) := map_index raw "Kind" in
          let '(kindVal, ok) :=
            if negb ok then map_index raw "kind" else (kindVal, ok) in
          if negb ok then
            (None, Some (errorString
               "Payload does not contain a kind/Kind key at the top level"))
          else
            let '(kindStr, ok) := assert_string kindVal in
            if ok then
              let '(newEntry, err) := MakeConfigEntry kindStr "" in
              match err with
              | Some e => (None, Some e)
              | None =>
                  let entry := newEntry in
                  let decodeConf :=
                    mkDecoderConfig
                      (ComposeDecodeHookFunc
                         [StringToTimeDurationHookFunc; stringToReadableDurationFunc])
                      entry in
                  match NewDecoder decodeConf with
                  | inl e => (None, Some e)
                  | inr decoder => Decoder_Decode decoder raw
                  end
              end
            else
              (None, Some (errorString "Kind value in payload is not a string"))
      end
  end.

Definition decodeConfigEntry (raw : gmap string value)
  : option ConfigEntry * option error :=
  let '(kindVal, ok) := map_index raw "Kind" in
  let '(kindVal, ok) :=
    if negb ok then map_index raw "kind" else (kindVal, ok) in
  if negb ok then
    (None, Some (errorString
       "Payload does not contain a kind/Kind key at the top level"))
  else
    let '(kindStr, ok) := assert_string kindVal in
    if ok then
      let '(newEntry, err) := MakeConfigEntry kindStr "" in
      match err with
      | Some e => (None, Some e)
      | None =>
          let entry := newEntry in
          let decodeConf :=
            mkDecoderConfig
              (ComposeDecodeHookFunc
                 [StringToTimeDurationHookFunc; stringToReadableDurationFunc])
              entry in
          match NewDecoder decodeConf with
          | inl e => (None, Some e)
          | inr decoder => Decoder_Decode decoder raw
          end
      end
    else
      (None, Some (errorString "Kind value in payload is not a string")).

(** The two errors of the decoders, under the names the specification
    gives them. *)
Definition MissingKind : error :=
  errorString "Payload does not contain a kind/Kind key at the top level".

Definition InvalidKindType : error :=
  errorString "Kind value in payload is not a string".

(** [ConfigApply] applies the given config entry update. *)
Definition ConfigApply (req : Request) : M (option RPCReply * option error) :=
  let args := ConfigEntryRequest.mk ConfigEntryUpsert "" None "" in
  let args := ConfigEntryRequest.set_Datacenter
                (parseDC req (ConfigEntryRequest.Datacenter args)) args in
  let args := ConfigEntryRequest.set_Token
                (parseToken req (ConfigEntryRequest.Token args)) args in
  let '(raw, err) := decodeBody req in
  match err with
  | Some e =>
      mret (None, Some (BadRequestError ("Request decoding failed: " +:+ Error e)))
  | None =>
      let '(entry, err) := decodeConfigEntry raw in
      match err with
      | None =>
          let args := ConfigEntryRequest.set_Entry entry args in
          let reply := EmptyReply in
          '(reply, err) ← s_agent_RPC "ConfigEntry.Apply" (RequestArgs args) reply;
          mret (None, err)
      | Some e =>
          mret (None, Some (BadRequestError ("Request decoding failed: " +:+ Error e)))
      end
  end.

(** [Config] switches on the different CRUD operations for config entries. *)
Definition Config (req : Request) : M (option RPCReply * option error) :=
  if String.eqb (Method req) "GET" then configGet req
  else if String.eqb (Method req) "DELETE" then configDelete req
  else mret (None, Some (MethodNotAllowedError (Method req) ["GET"; "DELETE"])).

End Endpoint.

(** ** A model of the kind registry and of the decoder library

    The code of the [structs] package and of the [mapstructure] library is
    not at hand; this module gives the interfaces above an instance that follows
    the specification's description of the Kind Registry and of the
    Generic-to-Typed Decoder. *)

Module SpecModel.

#[local] Open Scope Z_scope.

(** Modelled from the spec: the types a field of a typed entry can have (the
    declarations of the entry structs are missing).  The specification
    speaks of strings, of duration values and of structured objects; the
    endpoint installs one hook for [time.Duration] and one for the readable
    duration, so both duration types are kept apart. *)
Inductive FieldType : Type :=
  | TString
  | TDuration
  | TReadableDuration
  | TObject.

#[global] Instance FieldType_eq_dec : EqDecision FieldType.
Proof. solve_decision. Defined.

Inductive FieldVal : Type :=
  | FString (s : string)
  | FDuration (ns : Z)
  | FObject (m : gmap string value).

(** Modelled from the spec: a typed entry (the missing [ConfigEntry]
    implementations).  Its runtime shape is fully determined by its kind:
    [Variant] is the kind it was made for, [Shape] the fields that kind
    declares, in order, after the two every entry has. *)
Record TypedEntry : Type := mkTypedEntry {
  Variant : string;
  Shape : list (string * FieldType);
  Fields : gmap string FieldVal
}.

Definition all_fields (shape : list (string * FieldType))
  : list (string * FieldType) :=
  ("Kind", TString) :: ("Name", TString) :: shape.

Definition zero_of (t : FieldType) : FieldVal :=
  match t with
  | TString => FString ""
  | TDuration | TReadableDuration => FDuration 0
  | TObject => FObject ∅
  end.

Definition zero_fields (fields : list (string * FieldType)) : gmap string FieldVal :=
  list_to_map (prod_map id zero_of <$> fields).

(** *** Durations *)

Definition Nanosecond : Z := 1.
Definition Microsecond : Z := 1000 * Nanosecond.
Definition Millisecond : Z := 1000 * Microsecond.
Definition Second : Z := 1000 * Millisecond.
Definition Minute : Z := 60 * Second.
Definition Hour : Z := 60 * Minute.

Definition maxInt64 : Z := 2 ^ 63 - 1.
Definition minInt64 : Z := - 2 ^ 63.

(** Arithmetic on [int64] wraps around. *)
Definition wrap64 (z : Z) : Z := (z + 2 ^ 63) mod 2 ^ 64 - 2 ^ 63.

(** The conversion [int64(f)] of a [float64]: the fraction is discarded.
    Outside the range of [int64] Go leaves the result to the implementation;
    the model answers with the least [int64], as amd64 does. *)
Definition float64_to_int64 (f : float) : Z :=
  match Prim2SF f with
  | S754_zero _ => 0
  | S754_finite sign m e =>
      let a := if (0 <=? e)%Z then Z.pos m * 2 ^ e else Z.pos m / 2 ^ (- e) in
      let z := if sign then - a else a in
      if (minInt64 <=? z) && (z <=? maxInt64) then z else minInt64
  | S754_infinity _ | S754_nan => minInt64
  end%Z.

(** The conversion [float64(n)] of an [int64] that is not negative. *)
Definition int64_to_float64 (n : Z) : float := PrimFloat.of_uint63 (Uint63.of_Z n).

(** The micro sign (U+00B5) and the Greek letter mu (U+03BC), each two bytes
    in UTF-8. *)
Definition micro : string :=
  String (ascii_of_nat 194) (String (ascii_of_nat 181) EmptyString).

Definition mu : string :=
  String (ascii_of_nat 206) (String (ascii_of_nat 188) EmptyString).

(** Modelled from the spec: the unit suffixes of the duration grammar
    (ns, us/µs, ms, s, m, h); [time.ParseDuration] is the Go library's, and
    its table has the microsecond under both spellings of the letter. *)
Definition unitMap (u : string) : option Z :=
  if String.eqb u "ns" then Some Nanosecond
  else if String.eqb u "us" then Some Microsecond
  else if String.eqb u (micro +:+ "s") then Some Microsecond
  else if String.eqb u (mu +:+ "s") then Some Microsecond
  else if String.eqb u "ms" then Some Millisecond
  else if String.eqb u "s" then Some Second
  else if String.eqb u "m" then Some Minute
  else if String.eqb u "h" then Some Hour
  else None.

Definition is_digit (c : ascii) : bool :=
  (48 <=? nat_of_ascii c)%nat && (nat_of_ascii c <=? 57)%nat.

Definition is_dot (c : ascii) : bool := Ascii.eqb c ".".

Definition digit_val (c : ascii) : Z := Z.of_nat (nat_of_ascii c) - 48.

(** [leadingInt] consumes the leading digits of [s]: the number, and what
    follows; [None] when the number does not fit [int64]. *)
Fixpoint leadingInt (s : string) (x : Z) : option (Z * string) :=
  match s with
  | String c s' =>
      if is_digit c then
        if maxInt64 / 10 <? x then None
        else
          let x := wrap64 (x * 10 + digit_val c) in
          if x <? 0 then None else leadingInt s' x
      else Some (x, s)
  | EmptyString => Some (x, s)
  end.

(** [leadingFraction] consumes the leading digits of [s] for the digits
    after the point: the number, the power of ten it is to be divided by,
    and what follows.  Digits that would overflow are read and dropped. *)
Fixpoint leadingFraction (s : string) (x : Z) (scale : float) (overflow : bool)
  : Z * float * string :=
  match s with
  | String c s' =>
      if is_digit c then
        if overflow then leadingFraction s' x scale true
        else if maxInt64 / 10 <? x then leadingFraction s' x scale true
        else
          let y := wrap64 (x * 10 + digit_val c) in
          if y <? 0 then leadingFraction s' x scale true
          else leadingFraction s' y (scale * 10)%float false
      else (x, scale, s)
  | EmptyString => (x, scale, s)
  end.

(** The leading bytes of [s] up to the next digit or point, and what
    follows. *)
Fixpoint leadingUnit (s : string) : string * string :=
  match s with
  | String c s' =>
      if is_dot c || is_digit c then (EmptyString, s)
      else let '(u, rest) := leadingUnit s' in (String c u, rest)
  | EmptyString => (EmptyString, s)
  end.

Definition invalid_duration (orig : string) : error :=
  errorString ("time: invalid duration " +:+ orig).

Definition missing_unit (orig : string) : error :=
  errorString ("time: missing unit in duration " +:+ orig).

Definition unknown_unit (u orig : string) : error :=
  errorString ("time: unknown unit " +:+ u +:+ " in duration " +:+ orig).

(** The loop of [ParseDuration]: one round per group (digits, optionally a
    point and more digits, then a unit), the nanoseconds of the groups added
    up in [d]; [fuel] bounds the rounds. *)
Fixpoint ParseDuration_loop (fuel : nat) (orig s : string) (d : Z)
  : Z * option error :=
  match fuel with
  | O => (0, Some (invalid_duration orig))
  | S fuel' =>
      match s with
      | EmptyString => (d, None)
      | String c _ =>
          if negb (is_dot c || is_digit c) then (0, Some (invalid_duration orig))
          else
            match leadingInt s 0 with
            | None => (0, Some (invalid_duration orig))
            | Some (v, s1) =>
                let pre := negb (String.length s =? String.length s1)%nat in
                let '(f, scale, s2, post) :=
                  match s1 with
                  | String c1 s1' =>
                      if is_dot c1 then
                        let '(f, scale, s2) := leadingFraction s1' 0 1%float false in
                        (f, scale, s2,
                         negb (String.length s1' =? String.length s2)%nat)
                      else (0, 1%float, s1, false)
                  | EmptyString => (0, 1%float, s1, false)
                  end in
                if negb pre && negb post then (0, Some (invalid_duration orig))
                else
                  let '(u, s3) := leadingUnit s2 in
                  if String.eqb u "" then (0, Some (missing_unit orig))
                  else
                    match unitMap u with
                    | None => (0, Some (unknown_unit u orig))
                    | Some unit =>
                        if maxInt64 / unit <? v then (0, Some (invalid_duration orig))
                        else
                          let v := v * unit in
                          let v :=
                            if 0 <? f then
                              wrap64 (v + float64_to_int64
                                            (int64_to_float64 f
                                             * (int64_to_float64 unit / scale))%float)
                            else v in
                          if (0 <? f) && (v <? 0) then (0, Some (invalid_duration orig))
                          else
                            let d := wrap64 (d + v) in
                            if d <? 0 then (0, Some (invalid_duration orig))
                            else ParseDuration_loop fuel' orig s3 d
                    end
            end
      end
  end.

(** Modelled from the spec: the standard duration grammar, that of Go's
    [time.ParseDuration]: an optional sign, then one or more groups of a
    decimal number, with or without a fraction, and a unit suffix ("10s",
    "2h30m", "1.5h", "-1h"); the bare "0" is zero.  The result is a count of
    nanoseconds in an [int64].  Every round shortens the string, so the fuel
    is never what ends the loop. *)
Definition ParseDuration (s : string) : Z * option error :=
  let orig := s in
  let '(neg, s) :=
    match s with
    | String c s' =>
        if Ascii.eqb c "-" || Ascii.eqb c "+" then (Ascii.eqb c "-", s')
        else (false, s)
    | EmptyString => (false, s)
    end in
  if String.eqb s "0" then (0, None)
  else if String.eqb s "" then (0, Some (invalid_duration orig))
  else
    let '(d, err) := ParseDuration_loop (S (String.length s)) orig s 0 in
    match err with
    | Some e => (0, Some e)
    | None => (if neg then - d else d, None)
    end.

(** What follows a run of digits does not begin with a digit. *)
Definition ends_digits (rest : string) : Prop :=
  match rest with
  | EmptyString => True
  | String c _ => is_digit c = false
  end.

(** What follows a unit is the end or the next number. *)
Definition starts_number (rest : string) : Prop :=
  match rest with
  | EmptyString => True
  | String c _ => is_dot c || is_digit c = true
  end.

(** A duration written as groups of a whole number, in decimal, and a unit
    suffix: the text of the groups, and the nanoseconds they add up to. *)
Definition decimal (n : nat) : string := NilEmpty.string_of_uint (Nat.to_uint n).

Fixpoint render (groups : list (nat * string)) : string :=
  match groups with
  | [] => EmptyString
  | (n, u) :: rest => decimal n +:+ (u +:+ render rest)
  end.

Fixpoint total (groups : list (nat * string)) : Z :=
  match groups with
  | [] => 0
  | (n, u) :: rest => Z.of_nat n * default 0 (unitMap u) + total rest
  end.

(** *** Case-insensitive keys *)

Definition lower (c : ascii) : ascii :=
  let n := nat_of_ascii c in
  if (65 <=? n)%nat && (n <=? 90)%nat then ascii_of_nat (n + 32)%nat else c.

Fixpoint ToLower (s : string) : string :=
  match s with
  | EmptyString => EmptyString
  | String c s' => String (lower c) (ToLower s')
  end.

(** Modelled from the spec: keys match field names case-insensitively.  The
    model folds ASCII letters, the library folds Unicode. *)
Definition EqualFold (s t : string) : bool :=
  bool_decide (ToLower s = ToLower t).

(** Modelled from the spec: the key of the raw mapping that a field takes its
    value from: the key that is the field's name, else a key that equals it
    up to case (the specification does not say which, when there are
    several; the model takes the first in the enumeration of the map's
    keys). *)
Definition find_key (raw : gmap string value) (field : string) : option value :=
  match raw !! field with
  | Some v => Some v
  | None =>
      match elements (filter (λ k, EqualFold k field = true) (dom raw)) with
      | k :: _ => raw !! k
      | [] => None
      end
  end.

(** *** Conversion hooks and coercion *)

(** What a hook sees and yields: a value of the raw mapping, or the duration
    an earlier hook made of it. *)
Inductive data : Type :=
  | DValue (v : value)
  | DDuration (ns : Z).

Definition Hook : Type := FieldType → data → data * option error.

(** Modelled from the spec: a duration field accepts a human-readable
    duration string.  This hook serves fields of type [time.Duration]. *)
Definition StringToTimeDurationHook : Hook :=
  λ t d,
    match t, d with
    | TDuration, DValue (VString s) =>
        let '(ns, err) := ParseDuration s in (DDuration ns, err)
    | _, _ => (d, None)
    end.

(** Modelled from the spec: the same for fields of the readable duration
    type (the hook [stringToReadableDurationFunc] of the agent is missing). *)
Definition stringToReadableDurationHook : Hook :=
  λ t d,
    match t, d with
    | TReadableDuration, DValue (VString s) =>
        let '(ns, err) := ParseDuration s in (DDuration ns, err)
    | _, _ => (d, None)
    end.

(** The hooks are applied in the order of the list, each to the result of
    the one before; the first error ends the chain. *)
Fixpoint ComposeHooks (hooks : list Hook) : Hook :=
  λ t d,
    match hooks with
    | [] => (d, None)
    | h :: rest =>
        let '(d', err) := h t d in
        match err with
        | Some e => (d', Some e)
        | None => ComposeHooks rest t d'
        end
    end.

Definition type_name (t : FieldType) : string :=
  match t with
  | TString => "string"
  | TDuration => "time.Duration"
  | TReadableDuration => "api.ReadableDuration"
  | TObject => "map[string]interface {}"
  end.

Definition value_type_name (v : value) : string :=
  match v with
  | VNil => "nil"
  | VBool _ => "bool"
  | VFloat64 _ => "float64"
  | VString _ => "string"
  | VSlice _ => "[]interface {}"
  | VMap _ => "map[string]interface {}"
  end.

(** Modelled from the spec: a mismatch that cannot be coerced fails with an
    error that carries the offending key and the expected and actual type. *)
Definition DecodeMismatch (key : string) (t : FieldType) (v : value) : error :=
  errorString ("'" +:+ key +:+ "' expected type '" +:+ type_name t
               +:+ "', got unconvertible type '" +:+ value_type_name v +:+ "'").

(** Modelled from the spec: the coercion of one value onto a field of type
    [t].  Strings go to string fields, objects to object fields; a duration
    field takes what a hook made of a string, or a number verbatim as
    nanoseconds. *)
Definition decode_field (hook : Hook) (key : string) (t : FieldType) (v : value)
  : FieldVal * option error :=
  let '(d, err) := hook t (DValue v) in
  match err with
  | Some e => (zero_of t, Some e)
  | None =>
      match t, d with
      | TString, DValue (VString s) => (FString s, None)
      | (TDuration | TReadableDuration), DDuration ns => (FDuration ns, None)
      | (TDuration | TReadableDuration), DValue (VFloat64 f) =>
          (FDuration (float64_to_int64 f), None)
      | TObject, DValue (VMap m) => (FObject m, None)
      | _, _ => (zero_of t, Some (DecodeMismatch key t v))
      end
  end.

(** Modelled from the spec: every key of the raw mapping is coerced onto the
    field it matches, keys that match no field are ignored, and the first
    failure is the result.  The fields are visited in declaration order. *)
Fixpoint decode_fields (hook : Hook) (raw : gmap string value)
    (fields : list (string * FieldType)) (acc : gmap string FieldVal)
  : gmap string FieldVal * option error :=
  match fields with
  | [] => (acc, None)
  | (name, t) :: rest =>
      match find_key raw name with
      | None => decode_fields hook raw rest acc
      | Some v =>
          let '(x, err) := decode_field hook name t v in
          match err with
          | Some e => (acc, Some e)
          | None => decode_fields hook raw rest (<[name := x]> acc)
          end
      end
  end.

(** The fields of a fresh entry of the given shape with the empty name. *)
Definition fresh_fields (shape : list (string * FieldType)) : gmap string FieldVal :=
  <["Name" := FString ""]> (zero_fields (all_fields shape)).

(** The hook chain the endpoint configures. *)
Definition endpoint_hook : Hook :=
  ComposeHooks [StringToTimeDurationHook; stringToReadableDurationHook].

Definition is_duration (t : FieldType) : bool :=
  match t with
  | TDuration | TReadableDuration => true
  | TString | TObject => false
  end.

(** Modelled from the spec: [decode(rawMapping)] from the coercion on (the
    missing [Decoder.Decode]): the fields of the entry the registry made are
    populated from the whole mapping, the discriminator key included, and the
    entry comes back with the first error, if any.  A nil entry has no fields
    to decode into. *)
Definition Decode (hook : Hook) (entry : option TypedEntry) (raw : gmap string value)
  : option TypedEntry * option error :=
  match entry with
  | None => (None, Some (errorString "mapstructure: no typed entry to decode into"))
  | Some e =>
      let '(fields, err) := decode_fields hook raw (all_fields (Shape e)) (Fields e) in
      (Some (mkTypedEntry (Variant e) (Shape e) fields), err)
  end.

(** *** The order of the keys in a run *)

(** Modelled from the spec: keys match field names case-insensitively, and
    the specification does not say which key a field takes when several
    equal its name up to case.  The library reads the key that is the
    field's name and, when there is none, ranges over the keys of the
    mapping and takes the first that equals the name up to case.  The
    mapping is a Go map and the order of a range over it is not fixed: it
    can differ from one range to the next and from one run to the next.
    [order] is the order of one such range. *)
Definition find_key_in (order : list string) (raw : gmap string value)
    (field : string) : option value :=
  match raw !! field with
  | Some v => Some v
  | None =>
      match List.find (λ k, EqualFold k field) order with
      | Some k => raw !! k
      | None => None
      end
  end.

(** The ranges of one run: the order in which the keys of a mapping come
    when the search for a field ranges over them. *)
Definition Range : Type := gmap string value → string → list string.

(** Every range visits every key of the mapping once. *)
Definition Range_ok (range : Range) : Prop :=
  ∀ raw field, range raw field ≡ₚ elements (dom raw).

(** Modelled from the spec: the coercion of the fields, as [decode_fields],
    in a run with the given ranges. *)
Fixpoint decode_fields_in (range : Range) (hook : Hook) (raw : gmap string value)
    (fields : list (string * FieldType)) (acc : gmap string FieldVal)
  : gmap string FieldVal * option error :=
  match fields with
  | [] => (acc, None)
  | (name, t) :: rest =>
      match find_key_in (range raw name) raw name with
      | None => decode_fields_in range hook raw rest acc
      | Some v =>
          let '(x, err) := decode_field hook name t v in
          match err with
          | Some e => (acc, Some e)
          | None => decode_fields_in range hook raw rest (<[name := x]> acc)
          end
      end
  end.

(** Modelled from the spec: [decode(rawMapping)] from the coercion on, as
    [Decode], in a run with the given ranges. *)
Definition Decode_in (range : Range) (hook : Hook) (entry : option TypedEntry)
    (raw : gmap string value) : option TypedEntry * option error :=
  match entry with
  | None => (None, Some (errorString "mapstructure: no typed entry to decode into"))
  | Some e =>
      let '(fields, err) :=
        decode_fields_in range hook raw (all_fields (Shape e)) (Fields e) in
      (Some (mkTypedEntry (Variant e) (Shape e) fields), err)
  end.

(** No two keys of the mapping are equal up to case. *)
Definition no_fold_clash (raw : gmap string value) : Prop :=
  ∀ k k', k ∈ dom raw → k' ∈ dom raw → EqualFold k k' = true → k = k'.

(** Three runs: the keys in the order of the enumeration of the map, in the
    opposite order, and with the keys that match the field in front, which
    is the order [find_key] reads them in. *)
Definition forward : Range := λ raw _, elements (dom raw).

Definition backward : Range := λ raw _, reverse (elements (dom raw)).

Definition canonical : Range :=
  λ raw field,
    elements (filter (λ k, EqualFold k field = true) (dom raw))
    ++ elements (filter (λ k, ¬ EqualFold k field = true) (dom raw)).

(** *** The registry *)

Section Registry.

Variable registry : gmap string (list (string * FieldType)).

(** Modelled from the spec: an unknown kind is signalled as [UnknownKind]. *)
Definition UnknownKind (kind : string) : error :=
  errorString ("invalid config entry kind: " +:+ kind).

(** Modelled from the spec: [resolve(kindIdentifier, name)] of the Kind
    Registry (the missing [structs.MakeConfigEntry]): for a known kind a
    fresh, zero-valued typed entry pre-populated with [Name]; the kind is
    matched as an exact string. *)
Definition resolve (kind name : string) : option TypedEntry * option error :=
  match registry !! kind with
  | Some shape =>
      (Some (mkTypedEntry kind shape
               (<["Name" := FString name]> (zero_fields (all_fields shape)))),
       None)
  | None => (None, Some (UnknownKind kind))
  end.

Definition model_Structs : Structs := {|
  ConfigEntry := TypedEntry;
  ConfigEntryOp := string;
  ConfigEntryOp_zero := "";
  ConfigEntryUpsert := "upsert";
  QueryOptions := string;
  QueryOptions_zero := "";
  IndexedConfigEntries := list TypedEntry;
  IndexedConfigEntries_zero := [];
  MakeConfigEntry := resolve
|}.

(** A decoder is its configuration; making one of a configuration whose
    result is addressable does not fail. *)
Definition model_NewDecoder (cfg : DecoderConfig Hook TypedEntry)
  : error + DecoderConfig Hook TypedEntry := inr cfg.

Definition model_Decode (d : DecoderConfig Hook TypedEntry) (raw : gmap string value)
  : option TypedEntry * option error :=
  Decode (DecodeHook d) (Result d) raw.

Definition model_Mapstructure : @Mapstructure model_Structs :=
  @Build_Mapstructure model_Structs
    Hook ComposeHooks StringToTimeDurationHook
    (DecoderConfig Hook TypedEntry) model_NewDecoder model_Decode.

End Registry.

(** *** The decoder library in a run *)

Section Runs.

Variable registry : gmap string (list (string * FieldType)).

Variable range : Range.

Definition run_Decode (d : DecoderConfig Hook TypedEntry) (raw : gmap string value)
  : option TypedEntry * option error :=
  Decode_in range (DecodeHook d) (Result d) raw.

(** The decoder library in the run whose ranges are [range]; the registry
    and the hooks are those of [model_Mapstructure]. *)
Definition run_Mapstructure : @Mapstructure (model_Structs registry) :=
  @Build_Mapstructure (model_Structs registry)
    Hook ComposeHooks StringToTimeDurationHook
    (DecoderConfig Hook TypedEntry) model_NewDecoder run_Decode.

End Runs.

End SpecModel.

(** ** An agent to run the handlers on

    A small instance of the remaining interfaces, for the examples: a server
    whose [parse] never answers by itself, a backend that accepts every call,
    and a JSON reader for flat objects with string members. *)

Module Sample.

Import SpecModel.

Definition registry : gmap string (list (string * FieldType)) :=
  list_to_map
    [ ("service-defaults", [("Protocol", TString)]);
      ("proxy-defaults", [("Config", TObject)]);
      ("service-resolver", [("DefaultSubset", TString);
                            ("ConnectTimeout", TDuration);
                            ("RequestTimeout", TReadableDuration)]) ].

Definition dquote : ascii := ascii_of_nat 34.

Definition quoted (s : string) : string :=
  String dquote (s +:+ String dquote EmptyString).

(** The bytes of a string literal up to its closing quote, and the rest. *)
Fixpoint until_quote (s : string) : option (string * string) :=
  match s with
  | EmptyString => None
  | String c s' =>
      if Ascii.eqb c dquote then Some (EmptyString, s')
      else '(a, rest) ← until_quote s'; Some (String c a, rest)
  end.

Definition read_string (s : string) : option (string * string) :=
  match s with
  | String c s' => if Ascii.eqb c dquote then until_quote s' else None
  | EmptyString => None
  end.

Fixpoint read_members (fuel : nat) (s : string) (acc : gmap string value)
  : option (gmap string value) :=
  match fuel with
  | O => None
  | S fuel' =>
      '(k, s1) ← read_string s;
      match s1 with
      | String ":" s2 =>
          '(v, s3) ← read_string s2;
          let acc := <[k := VString v]> acc in
          match s3 with
          | String "," s4 => read_members fuel' s4 acc
          | String "}" EmptyString => Some acc
          | _ => None
          end
      | _ => None
      end
  end.

Definition read_json (body : string) : gmap string value * option error :=
  match body with
  | EmptyString => (∅, Some EOF)
  | String "{" (String "}" EmptyString) => (∅, None)
  | String "{" s =>
      match read_members (String.length s) s ∅ with
      | Some m => (m, None)
      | None => (∅, Some (errorString "invalid character"))
      end
  | _ => (∅, Some (errorString "invalid character"))
  end.

#[export] Instance sample_Json : Json := {| json_Decode := read_json |}.

#[export] Instance sample_Structs : Structs := model_Structs registry.

#[export] Instance sample_Mapstructure : @Mapstructure sample_Structs :=
  model_Mapstructure registry.

#[export] Instance sample_Agent : Agent := {|
  parse := λ rw req dc opts, (rw, (dc, URL_RawQuery req), false);
  parseDC := λ req dc, dc;
  parseToken := λ req token,
    match Header req !! "X-Consul-Token" with
    | Some (t :: _) => t
    | _ => token
    end;
  decodeBody := λ req,
    match Body req with
    | Some body => read_json body
    | None => (∅, Some EOF)
    end;
  stringToReadableDurationFunc := stringToReadableDurationHook;
  MethodNotAllowedError_Error := λ m _, "method " +:+ m +:+ " not allowed";
  BadRequestError_Error := λ r, "Bad request: " +:+ r;
  RPC := λ method args reply, (reply, None)
|}.

Definition request (method path : string) (body : option string) : Request :=
  mkRequest method path "" ∅ body.

Definition fresh : World := mkWorld (mkResponseWriter None "") [].

(** A mapping for the resolver kind: the discriminator spelled "kind", a key
    in lower case, a number for a duration and a key no field reads. *)
Definition resolver_raw : gmap string value :=
  list_to_map [ ("kind", VString "service-resolver");
                ("Name", VString "web");
                ("connecttimeout", VString "1h");
                ("RequestTimeout", VFloat64 5000000000);
                ("extra", VBool true) ].

(** A number under "Kind" next to a registered kind under "kind". *)
Definition shadowed_kind_raw : gmap string value :=
  list_to_map [ ("Kind", VFloat64 5); ("kind", VString "proxy-defaults") ].

(** A registered kind and a number where the name should be. *)
Definition mismatch_raw : gmap string value :=
  list_to_map [ ("Kind", VString "service-defaults"); ("Name", VFloat64 5) ].

Definition unknown_kind_raw : gmap string value :=
  list_to_map [ ("Kind", VString "web") ].

(** The agent in the run whose ranges are [range]. *)
Definition run_Agent (range : Range)
  : @Agent (model_Structs registry) (run_Mapstructure registry range) :=
  @Build_Agent (model_Structs registry) (run_Mapstructure registry range)
    (@parse _ _ sample_Agent) (@parseDC _ _ sample_Agent)
    (@parseToken _ _ sample_Agent) (@decodeBody _ _ sample_Agent)
    stringToReadableDurationHook
    (@MethodNotAllowedError_Error _ _ sample_Agent)
    (@BadRequestError_Error _ _ sample_Agent)
    (@RPC _ _ sample_Agent).

(** Two keys that are the field "Name" up to case, and none that spells it
    so. *)
Definition clash_raw : gmap string value :=
  list_to_map [ ("Kind", VString "service-defaults");
                ("name", VString "a");
                ("NAME", VString "b") ].

(** The JSON text of an object with the given string members. *)
Fixpoint members_text (ms : list (string * string)) : string :=
  match ms with
  | [] => EmptyString
  | [(k, v)] => quoted k +:+ ":" +:+ quoted v
  | (k, v) :: rest => quoted k +:+ ":" +:+ quoted v +:+ "," +:+ members_text rest
  end.

Definition object_text (ms : list (string * string)) : string :=
  "{" +:+ members_text ms +:+ "}".

Definition field_of (r : option TypedEntry * option error) (f : string)
  : option FieldVal :=
  match r.1 with
  | Some e => Fields e !! f
  | None => None
  end.

End Sample.

(** * Properties *)

(** ** Go's [strings] package *)

Module GoStringsFacts.

Lemma HasPrefix_app (p s : string) : HasPrefix (p +:+ s) p = true.
Proof.
  induction p as [|c p IH]; simpl; [done |].
  by rewrite Ascii.eqb_refl, IH.
Qed.

Lemma skip_app (p s : string) : skip (String.length p) (p +:+ s) = s.
Proof. induction p as [|c p IH]; simpl; [by destruct s | exact IH]. Qed.

Lemma keep_app (p s : string) : keep (String.length p) (p +:+ s) = p.
Proof. induction p as [|c p IH]; simpl; [by destruct s | by rewrite IH]. Qed.

Lemma TrimPrefix_app (p s : string) : TrimPrefix (p +:+ s) p = s.
Proof. unfold TrimPrefix. by rewrite HasPrefix_app, skip_app. Qed.

Lemma Index_nil (sep : string) :
  Index "" sep = if HasPrefix "" sep then 0%Z else (-1)%Z.
Proof. reflexivity. Qed.

Lemma Index_cons (c : ascii) (s sep : string) :
  Index (String c s) sep =
    if HasPrefix (String c s) sep then 0%Z
    else if (Index s sep <? 0)%Z then (-1)%Z else (Index s sep + 1)%Z.
Proof. reflexivity. Qed.

Lemma HasPrefix_slash (c : ascii) (s : string) :
  HasPrefix (String c s) "/" = bool_decide (c = "/"%char).
Proof.
  cbn [HasPrefix]. rewrite andb_true_r.
  destruct (Ascii.eqb_spec c "/") as [-> | Hne].
  - by rewrite bool_decide_eq_true_2.
  - by rewrite bool_decide_eq_false_2.
Qed.

Lemma Index_range (s sep : string) :
  Index s sep = (-1)%Z ∨ (0 ≤ Index s sep ≤ Z.of_nat (String.length s))%Z.
Proof.
  induction s as [|c s IH].
  - rewrite Index_nil. destruct (HasPrefix "" sep); [right; simpl; lia | by left].
  - rewrite Index_cons. cbn [String.length].
    destruct (HasPrefix (String c s) sep); [right; lia |].
    destruct IH as [-> | IH]; [by left |].
    destruct (Z.ltb_spec (Index s sep) 0); [lia | right; lia].
Qed.

Lemma SplitN_slash_2 (s : string) :
  SplitN s "/" 2 =
    if (Index s "/" <? 0)%Z then [s]
    else [keep (Z.to_nat (Index s "/")) s; skip (Z.to_nat (Index s "/") + 1) s].
Proof.
  change (SplitN s "/" 2) with (genSplit_loop 1 s "/" 0).
  cbn [genSplit_loop String.length].
  destruct (Index s "/" <? 0)%Z; [done |].
  by rewrite Nat.add_0_r.
Qed.

Lemma SplitN_slash_2_length (s : string) :
  length (SplitN s "/" 2) = 1%nat ∨ length (SplitN s "/" 2) = 2%nat.
Proof. rewrite SplitN_slash_2. destruct (Index s "/" <? 0)%Z; auto. Qed.

Lemma Index_slash_free (s : string) : slash_free s → Index s "/" = (-1)%Z.
Proof.
  unfold slash_free. induction s as [|c s IH]; [done |].
  cbn [list_ascii_of_string]. intros Hc. apply not_elem_of_cons in Hc as [Hne Hs].
  rewrite Index_cons, HasPrefix_slash, bool_decide_eq_false_2 by done.
  by rewrite (IH Hs).
Qed.

Lemma Index_first_slash (a b : string) :
  slash_free a → Index (a +:+ String "/" b) "/" = Z.of_nat (String.length a).
Proof.
  unfold slash_free. induction a as [|c a IH].
  - intros _. change ("" +:+ String "/" b) with (String "/" b).
    by rewrite Index_cons, HasPrefix_slash.
  - change (String c a +:+ String "/" b) with (String c (a +:+ String "/" b)).
    cbn [list_ascii_of_string String.length].
    intros Hc. apply not_elem_of_cons in Hc as [Hne Hs].
    rewrite Index_cons, HasPrefix_slash, bool_decide_eq_false_2 by done.
    rewrite (IH Hs).
    destruct (Z.ltb_spec (Z.of_nat (String.length a)) 0); lia.
Qed.

Lemma SplitN_no_slash (s : string) : slash_free s → SplitN s "/" 2 = [s].
Proof. intros Hs. rewrite SplitN_slash_2. by rewrite (Index_slash_free s Hs). Qed.

Lemma app_cons (c : ascii) (a b : string) :
  String c a +:+ b = String c (a +:+ b).
Proof. reflexivity. Qed.

Lemma app_slash_assoc (a b : string) : a +:+ String "/" b = (a +:+ "/") +:+ b.
Proof. induction a as [|c a IH]; [done |]. by rewrite !app_cons, IH. Qed.

Lemma length_app_slash (a : string) :
  String.length (a +:+ "/") = (String.length a + 1)%nat.
Proof. induction a as [|c a IH]; simpl; [done | f_equal; exact IH]. Qed.

Lemma SplitN_first_slash (a b : string) :
  slash_free a → SplitN (a +:+ String "/" b) "/" 2 = [a; b].
Proof.
  intros Ha. rewrite SplitN_slash_2, (Index_first_slash a b Ha).
  destruct (Z.ltb_spec (Z.of_nat (String.length a)) 0); [lia |].
  rewrite Nat2Z.id, keep_app, <- length_app_slash.
  by rewrite (app_slash_assoc a b), skip_app.
Qed.

End GoStringsFacts.

(** ** The handlers and the decoders *)

Section EndpointFacts.

Context `{Agent} `{Json}.

Import GoStringsFacts.

Lemma pathArgs_length (req : Request) :
  length (pathArgs req) = 1%nat ∨ length (pathArgs req) = 2%nat.
Proof. apply SplitN_slash_2_length. Qed.

Lemma pathArgs_suffix (req : Request) (suffix : string) :
  URL_Path req = "/v1/config/" +:+ suffix → pathArgs req = SplitN suffix "/" 2.
Proof. unfold pathArgs. intros ->. by rewrite TrimPrefix_app. Qed.

(** Run [configGet] up to the answer of [parse]. *)
Ltac configGet_after_parse Hparse :=
  unfold configGet, mbind, M_bind, s_parse;
  cbn [ConfigEntryQuery.zero ConfigEntryQuery.Datacenter ConfigEntryQuery.Options];
  rewrite Hparse.

(** Case on what the backend answers. *)
Ltac backend_cases :=
  unfold reply_or_error;
  destruct (RPC _ _ _) as [? [? |]]; reflexivity.

(** Get with kind and name: one call of [ConfigEntry.Get]. *)
Lemma configGet_two_segments (req : Request) (w : World) rw dc opts kind name :
  parse (resp w) req "" QueryOptions_zero = (rw, (dc, opts), false) →
  pathArgs req = [kind; name] →
  configGet req w =
    (reply_or_error
       (RPC "ConfigEntry.Get" (QueryArgs (ConfigEntryQuery.mk kind name dc opts))
          (IndexedReply IndexedConfigEntries_zero)),
     mkWorld rw (calls w ++ [("ConfigEntry.Get",
                              QueryArgs (ConfigEntryQuery.mk kind name dc opts))])).
Proof.
  intros Hparse Hpath.
  configGet_after_parse Hparse. rewrite Hpath. cbn. backend_cases.
Qed.

(** Get with a kind only: one call of [ConfigEntry.List]. *)
Lemma configGet_one_segment (req : Request) (w : World) rw dc opts kind :
  parse (resp w) req "" QueryOptions_zero = (rw, (dc, opts), false) →
  pathArgs req = [kind] →
  configGet req w =
    (reply_or_error
       (RPC "ConfigEntry.List" (QueryArgs (ConfigEntryQuery.mk kind "" dc opts))
          (IndexedReply IndexedConfigEntries_zero)),
     mkWorld rw (calls w ++ [("ConfigEntry.List",
                              QueryArgs (ConfigEntryQuery.mk kind "" dc opts))])).
Proof.
  intros Hparse Hpath.
  configGet_after_parse Hparse. rewrite Hpath. cbn. backend_cases.
Qed.

(** When [parse] has answered the request, [configGet] does nothing more. *)
Lemma configGet_parse_done (req : Request) (w : World) rw out :
  parse (resp w) req "" QueryOptions_zero = (rw, out, true) →
  configGet req w = ((None, None), mkWorld rw (calls w)).
Proof.
  intros Hparse.
  configGet_after_parse Hparse. by destruct out.
Qed.

(** The [default] branch of [configGet] is never taken: whatever the
    request, the response is the one [parse] left, and the handler has
    called the backend unless [parse] was done. *)
Lemma configGet_never_BadRequest (req : Request) (w : World) :
  resp (configGet req w).2 = (parse (resp w) req "" QueryOptions_zero).1.1.
Proof.
  destruct (parse (resp w) req "" QueryOptions_zero) as [[rw [dc opts]] done] eqn:Hparse.
  destruct done.
  - by rewrite (configGet_parse_done _ _ _ _ Hparse).
  - destruct (pathArgs_length req) as [Hlen | Hlen].
    + destruct (pathArgs req) as [|kind [|? ?]] eqn:Hpath; try done.
      by rewrite (configGet_one_segment _ _ _ _ _ _ Hparse Hpath).
    + destruct (pathArgs req) as [|kind [|name [|? ?]]] eqn:Hpath; try done.
      by rewrite (configGet_two_segments _ _ _ _ _ _ _ Hparse Hpath).
Qed.

(** ** C1.  Get with the empty path suffix.  The specification answers it
    with BadRequest "Must provide either a kind or both kind and name" and
    no backend call.  In the code the empty suffix splits into the one
    segment [""], so the handler calls [ConfigEntry.List] with an empty kind
    and writes nothing: the branch that holds the BadRequest is the one
    [configGet_never_BadRequest] shows to be dead. *)
Theorem configGet_empty_path_calls_List (req : Request) (w : World) rw dc opts :
  URL_Path req = "/v1/config/" →
  parse (resp w) req "" QueryOptions_zero = (rw, (dc, opts), false) →
  pathArgs req = [""] ∧
  configGet req w =
    (reply_or_error
       (RPC "ConfigEntry.List" (QueryArgs (ConfigEntryQuery.mk "" "" dc opts))
          (IndexedReply IndexedConfigEntries_zero)),
     mkWorld rw (calls w ++ [("ConfigEntry.List",
                              QueryArgs (ConfigEntryQuery.mk "" "" dc opts))])).
Proof.
  intros Hurl Hparse.
  assert (Hpath : pathArgs req = [""]).
  { unfold pathArgs. rewrite Hurl. reflexivity. }
  split; [exact Hpath |].
  exact (configGet_one_segment req w rw dc opts "" Hparse Hpath).
Qed.

(** Delete with a path that does not split in two. *)
Lemma configDelete_bad_path (req : Request) (w : World) :
  length (pathArgs req) ≠ 2%nat →
  configDelete req w =
    ((None, None),
     mkWorld (rw_Write "Must provide both a kind and name to delete"
                (rw_WriteHeader StatusBadRequest (resp w)))
             (calls w)).
Proof.
  intros Hlen. unfold configDelete.
  destruct (decide (length (pathArgs req) ≠ 2%nat)) as [_ | Hno]; [| by destruct Hno].
  reflexivity.
Qed.

(** Delete with kind and name, after the registry has answered. *)
Lemma configDelete_two_segments (req : Request) (w : World) kind name :
  pathArgs req = [kind; name] →
  configDelete req w =
    match MakeConfigEntry kind name with
    | (_, Some e) =>
        ((None, None),
         mkWorld (rw_Write (Error e) (rw_WriteHeader StatusBadRequest (resp w)))
                 (calls w))
    | (entry, None) =>
        let args := ConfigEntryRequest.mk ConfigEntryOp_zero (parseDC req "")
                      entry (parseToken req "") in
        (reply_or_error (RPC "ConfigEntry.Delete" (RequestArgs args) EmptyReply),
         mkWorld (resp w) (calls w ++ [("ConfigEntry.Delete", RequestArgs args)]))
    end.
Proof.
  intros Hpath. unfold configDelete. rewrite Hpath.
  destruct (decide (length [kind; name] ≠ 2%nat)) as [Hno | _]; [by destruct Hno |].
  change ([kind; name] !!! 0%nat) with kind.
  change ([kind; name] !!! 1%nat) with name.
  destruct (MakeConfigEntry kind name) as [entry [e |]]; [done |].
  unfold mbind, M_bind, s_agent_RPC. cbn. backend_cases.
Qed.

(** ** C2.  Delete: unless the path suffix splits into exactly two segments
    the answer is BadRequest "Must provide both a kind and name to delete"
    and the backend is not called.  With two segments, kind and name, the
    entry comes from the registry, [MakeConfigEntry kind name], and with
    that entry the one backend call is [ConfigEntry.Delete]; if the registry
    has no such kind the answer is BadRequest with the registry's error and
    the backend is not called. *)
Theorem configDelete_cardinality (req : Request) (w : World) :
  (length (pathArgs req) ≠ 2%nat →
     configDelete req w =
       ((None, None),
        mkWorld (rw_Write "Must provide both a kind and name to delete"
                   (rw_WriteHeader StatusBadRequest (resp w)))
                (calls w)))
  ∧ (∀ kind name entry,
       pathArgs req = [kind; name] →
       MakeConfigEntry kind name = (entry, None) →
       let args := ConfigEntryRequest.mk ConfigEntryOp_zero (parseDC req "")
                     entry (parseToken req "") in
       configDelete req w =
         (reply_or_error (RPC "ConfigEntry.Delete" (RequestArgs args) EmptyReply),
          mkWorld (resp w) (calls w ++ [("ConfigEntry.Delete", RequestArgs args)])))
  ∧ (∀ kind name entry e,
       pathArgs req = [kind; name] →
       MakeConfigEntry kind name = (entry, Some e) →
       configDelete req w =
         ((None, None),
          mkWorld (rw_Write (Error e) (rw_WriteHeader StatusBadRequest (resp w)))
                  (calls w))).
Proof.
  split; [exact (configDelete_bad_path req w) |]. split.
  - intros kind name entry Hpath Hmake.
    by rewrite (configDelete_two_segments req w kind name Hpath), Hmake.
  - intros kind name entry e Hpath Hmake.
    by rewrite (configDelete_two_segments req w kind name Hpath), Hmake.
Qed.

(** ** C6.  [Config] routes GET to [configGet] and DELETE to [configDelete];
    for every other verb it returns [MethodNotAllowedError] with the verb
    and the list GET, DELETE, and leaves the response and the backend
    alone. *)
Theorem Config_method_dispatch (req : Request) (w : World) :
  (Method req = "GET" → Config req w = configGet req w)
  ∧ (Method req = "DELETE" → Config req w = configDelete req w)
  ∧ (Method req ≠ "GET" → Method req ≠ "DELETE" →
       Config req w =
         ((None, Some (MethodNotAllowedError (Method req) ["GET"; "DELETE"])), w)).
Proof.
  unfold Config. repeat split.
  - by intros ->.
  - by intros ->.
  - intros Hget Hdel.
    destruct (String.eqb_spec (Method req) "GET"); [done |].
    destruct (String.eqb_spec (Method req) "DELETE"); [done |].
    reflexivity.
Qed.

(** The two reads of the code find the discriminator of the specification. *)
Lemma map_index_discriminator (raw : gmap string value) :
  (let '(kindVal, ok) := map_index raw "Kind" in
   if negb ok then map_index raw "kind" else (kindVal, ok))
  = match discriminator raw with
    | Some v => (v, true)
    | None => (VNil, false)
    end.
Proof.
  unfold map_index, discriminator.
  destruct (raw !! "Kind"); [done |]. cbn. by destruct (raw !! "kind").
Qed.

(** [decodeConfigEntry] by the shape of the discriminator. *)
Lemma decodeConfigEntry_cases (raw : gmap string value) :
  decodeConfigEntry raw =
    match discriminator raw with
    | None => (None, Some MissingKind)
    | Some (VString kindStr) =>
        match MakeConfigEntry kindStr "" with
        | (_, Some e) => (None, Some e)
        | (entry, None) =>
            match NewDecoder
                    (mkDecoderConfig
                       (ComposeDecodeHookFunc
                          [StringToTimeDurationHookFunc; stringToReadableDurationFunc])
                       entry) with
            | inl e => (None, Some e)
            | inr decoder => Decoder_Decode decoder raw
            end
        end
    | Some _ => (None, Some InvalidKindType)
    end.
Proof.
  unfold decodeConfigEntry.
  pose proof (map_index_discriminator raw) as Hd.
  destruct (map_index raw "Kind") as [kindVal ok].
  destruct (if negb ok then map_index raw "kind" else (kindVal, ok)) as [v ok'].
  destruct (discriminator raw) as [d |]; inversion Hd; subst; cbn; [| done].
  destruct d as [| | |kindStr| |]; cbn; try done.
Qed.

(** ** C4.  A mapping with neither "Kind" nor "kind" fails with the
    missing-kind error; a mapping whose discriminator is not a string fails
    with the invalid-kind-type error.  The decoder is a total function: there
    is no input on which it has no result. *)
Theorem decode_missing_or_invalid_kind (raw : gmap string value) :
  (raw !! "Kind" = None → raw !! "kind" = None →
     decodeConfigEntry raw = (None, Some MissingKind))
  ∧ (∀ v, discriminator raw = Some v → (∀ s, v ≠ VString s) →
       decodeConfigEntry raw = (None, Some InvalidKindType)).
Proof.
  rewrite decodeConfigEntry_cases. split.
  - intros HK Hk. unfold discriminator. by rewrite HK, Hk.
  - intros v -> Hv. destruct v; try done. by destruct (Hv s).
Qed.

(** ** C5.  When the discriminator is a string the registry does not know,
    the decoder fails with the registry's error, and [ConfigApply] answers
    with a [BadRequestError] that wraps it, without calling the backend. *)
Theorem unknown_kind_is_BadRequest (raw : gmap string value) kindStr entry e :
  discriminator raw = Some (VString kindStr) →
  MakeConfigEntry kindStr "" = (entry, Some e) →
  decodeConfigEntry raw = (None, Some e)
  ∧ ∀ req w, decodeBody req = (raw, None) →
      ConfigApply req w =
        ((None, Some (BadRequestError ("Request decoding failed: " +:+ Error e))), w).
Proof.
  intros Hd Hmake.
  assert (Hdec : decodeConfigEntry raw = (None, Some e)).
  { by rewrite decodeConfigEntry_cases, Hd, Hmake. }
  split; [exact Hdec |].
  intros req w Hbody. unfold ConfigApply. by rewrite Hbody, Hdec.
Qed.

(** [ConfigApply] on a request whose body or whose mapping does not decode. *)
Lemma ConfigApply_body_error (req : Request) (w : World) raw e :
  decodeBody req = (raw, Some e) →
  ConfigApply req w =
    ((None, Some (BadRequestError ("Request decoding failed: " +:+ Error e))), w).
Proof. intros Hbody. unfold ConfigApply. by rewrite Hbody. Qed.

Lemma ConfigApply_decode_error (req : Request) (w : World) raw entry e :
  decodeBody req = (raw, None) →
  decodeConfigEntry raw = (entry, Some e) →
  ConfigApply req w =
    ((None, Some (BadRequestError ("Request decoding failed: " +:+ Error e))), w).
Proof. intros Hbody Hdec. unfold ConfigApply. by rewrite Hbody, Hdec. Qed.

(** [ConfigApply] on a request that decodes: one call, with the entry. *)
Lemma ConfigApply_sends_entry (req : Request) (w : World) raw entry :
  decodeBody req = (raw, None) →
  decodeConfigEntry raw = (entry, None) →
  let args := ConfigEntryRequest.mk ConfigEntryUpsert (parseDC req "") entry
                (parseToken req "") in
  ConfigApply req w =
    ((None, (RPC "ConfigEntry.Apply" (RequestArgs args) EmptyReply).2),
     mkWorld (resp w) (calls w ++ [("ConfigEntry.Apply", RequestArgs args)])).
Proof.
  intros Hbody Hdec args. unfold ConfigApply. rewrite Hbody, Hdec.
  unfold mbind, M_bind, s_agent_RPC. cbn. fold args.
  by destruct (RPC _ _ _).
Qed.

(** What Delete and Apply refuse never reaches the backend.  Delete with a
    path that does not split in two, or with a kind the registry rejects,
    and Apply with a body or a mapping that does not decode, leave the list
    of backend calls as it was; and Apply either sends one call that carries
    the entry the decoder returned without error, or sends nothing. *)
Lemma malformed_requests_make_no_call (req : Request) (w : World) :
  (length (pathArgs req) ≠ 2%nat → calls (configDelete req w).2 = calls w)
  ∧ (∀ kind name,
       pathArgs req = [kind; name] → (MakeConfigEntry kind name).2 ≠ None →
       calls (configDelete req w).2 = calls w)
  ∧ ((decodeBody req).2 ≠ None ∨ (decodeConfigEntry (decodeBody req).1).2 ≠ None →
       ∃ reason, ConfigApply req w = ((None, Some (BadRequestError reason)), w))
  ∧ (calls (ConfigApply req w).2 = calls w
     ∨ ∃ entry args,
         decodeConfigEntry (decodeBody req).1 = (entry, None)
         ∧ ConfigEntryRequest.Entry args = entry
         ∧ ConfigEntryRequest.Op args = ConfigEntryUpsert
         ∧ calls (ConfigApply req w).2
           = calls w ++ [("ConfigEntry.Apply", RequestArgs args)]).
Proof.
  split; [| split; [| split]].
  - intros Hlen. by rewrite (configDelete_bad_path req w Hlen).
  - intros kind name Hpath Hmake.
    rewrite (configDelete_two_segments req w kind name Hpath).
    by destruct (MakeConfigEntry kind name) as [entry [e |]].
  - destruct (decodeBody req) as [raw [e |]] eqn:Hbody; cbn.
    + intros _. eexists. exact (ConfigApply_body_error req w raw e Hbody).
    + intros [? | Hdec]; [done |].
      destruct (decodeConfigEntry raw) as [entry [e |]] eqn:Hd; [| done].
      eexists. exact (ConfigApply_decode_error req w raw entry e Hbody Hd).
  - destruct (decodeBody req) as [raw [e |]] eqn:Hbody; cbn.
    + left. by rewrite (ConfigApply_body_error req w raw e Hbody).
    + destruct (decodeConfigEntry raw) as [entry [e |]] eqn:Hd.
      * left. by rewrite (ConfigApply_decode_error req w raw entry e Hbody Hd).
      * right.
        exists entry, (ConfigEntryRequest.mk ConfigEntryUpsert (parseDC req "")
                         entry (parseToken req "")).
        by rewrite (ConfigApply_sends_entry req w raw entry Hbody Hd).
Qed.

(** ** C8.  A request with bad path cardinality does reach the backend.
    The specification counts the empty path suffix as zero segments and has
    Get refuse it before any backend call.  Through [Config], a GET of
    "/v1/config/" that [parse] has not answered splits into the one segment
    [""]: the handler writes nothing to the response and sends
    [ConfigEntry.List] with an empty kind, so the list of backend calls has
    grown by one.  What Delete and Apply refuse makes no call
    ([malformed_requests_make_no_call]). *)
Theorem Config_empty_path_reaches_backend (req : Request) (w : World) rw dc opts :
  Method req = "GET" →
  URL_Path req = "/v1/config/" →
  parse (resp w) req "" QueryOptions_zero = (rw, (dc, opts), false) →
  length (pathArgs req) = 1%nat
  ∧ resp (Config req w).2 = rw
  ∧ calls (Config req w).2
    = calls w ++ [("ConfigEntry.List", QueryArgs (ConfigEntryQuery.mk "" "" dc opts))]
  ∧ calls (Config req w).2 ≠ calls w.
Proof.
  intros Hmethod Hurl Hparse.
  assert (Hpath : pathArgs req = [""]).
  { unfold pathArgs. rewrite Hurl. reflexivity. }
  assert (Hget : Config req w = configGet req w).
  { unfold Config. by rewrite Hmethod. }
  rewrite Hget, (configGet_one_segment req w rw dc opts "" Hparse Hpath), Hpath.
  cbn [snd resp calls]. repeat split.
  intros Heq. apply (f_equal length) in Heq.
  rewrite length_app in Heq. cbn in Heq. lia.
Qed.

(** A run of [ConfigApply] leaves nothing behind that the next run would
    see: the same request applied twice in a row sends the same call twice,
    or nothing twice. *)
Lemma ConfigApply_twice (req : Request) (w : World) :
  let w1 := (ConfigApply req w).2 in
  let w2 := (ConfigApply req w1).2 in
  ∃ sent, calls w1 = calls w ++ sent ∧ calls w2 = calls w1 ++ sent.
Proof.
  destruct (decodeBody req) as [raw [e |]] eqn:Hbody.
  - exists []. cbn zeta.
    rewrite !(ConfigApply_body_error req _ raw e Hbody). cbn.
    by rewrite app_nil_r.
  - destruct (decodeConfigEntry raw) as [entry [e |]] eqn:Hdec.
    + exists []. cbn zeta.
      rewrite !(ConfigApply_decode_error req _ raw entry e Hbody Hdec). cbn.
      by rewrite app_nil_r.
    + eexists. cbn zeta.
      rewrite !(ConfigApply_sends_entry req _ raw entry Hbody Hdec). cbn.
      split; reflexivity.
Qed.

(** ** C10.  The decoder of a request body agrees with the decoder of a raw
    mapping: when the JSON decoder yields the mapping without error, both
    return the same entry and the same error.  A nil body is answered with
    [io.EOF], and so is every body on which the JSON decoder reports [io.EOF],
    as it does on an empty reader. *)
Theorem decodeConfigBody_agrees (req : Request) :
  (Body req = None → decodeConfigBody req = (None, Some EOF))
  ∧ (∀ body raw, Body req = Some body → json_Decode body = (raw, None) →
       decodeConfigBody req = decodeConfigEntry raw)
  ∧ (∀ body raw e, Body req = Some body → json_Decode body = (raw, Some e) →
       decodeConfigBody req = (None, Some e)).
Proof.
  unfold decodeConfigBody. repeat split.
  - by intros ->.
  - by intros body raw -> ->.
  - by intros body raw e -> ->.
Qed.

End EndpointFacts.

(** ** The model of the registry and of the decoder library *)

Module SpecModelFacts.

Import SpecModel.

#[local] Open Scope Z_scope.

(** *** Case folding is an equivalence *)

Lemma EqualFold_true (s t : string) : EqualFold s t = true ↔ ToLower s = ToLower t.
Proof. unfold EqualFold. apply bool_decide_eq_true. Qed.

Lemma EqualFold_refl (s : string) : EqualFold s s = true.
Proof. by apply EqualFold_true. Qed.

Lemma EqualFold_sym (s t : string) : EqualFold s t = EqualFold t s.
Proof.
  unfold EqualFold. apply bool_decide_ext. split; intros Heq; by symmetry.
Qed.

Lemma EqualFold_trans (s t u : string) :
  EqualFold s t = true → EqualFold t u = true → EqualFold s u = true.
Proof. rewrite !EqualFold_true. congruence. Qed.

(** *** The key a field reads *)

Lemma find_key_exact (raw : gmap string value) (f : string) (v : value) :
  raw !! f = Some v → find_key raw f = Some v.
Proof. unfold find_key. by intros ->. Qed.

Lemma find_key_none (raw : gmap string value) (f : string) :
  (∀ k, k ∈ dom raw → EqualFold k f = false) → find_key raw f = None.
Proof.
  intros Hno. unfold find_key.
  destruct (raw !! f) as [v |] eqn:Hf.
  - assert (Hin : f ∈ dom raw) by (apply elem_of_dom; eauto).
    specialize (Hno f Hin). by rewrite EqualFold_refl in Hno.
  - assert (Hempty : filter (λ k, EqualFold k f = true) (dom raw) = (∅ : gset string)).
    { apply set_eq. intros k. rewrite elem_of_filter.
      split; [intros [Hk Hin] | set_solver].
      rewrite (Hno k Hin) in Hk. done. }
    by rewrite Hempty, elements_empty.
Qed.

Lemma find_key_unique (raw : gmap string value) (f k : string) (v : value) :
  raw !! k = Some v → EqualFold k f = true →
  (∀ k', k' ∈ dom raw → EqualFold k' f = true → k' = k) →
  find_key raw f = Some v.
Proof.
  intros Hk Hfold Huniq. unfold find_key.
  destruct (raw !! f) as [v' |] eqn:Hf.
  - assert (Hin : f ∈ dom raw) by (apply elem_of_dom; eauto).
    rewrite (Huniq f Hin (EqualFold_refl f)) in Hf. congruence.
  - assert (Hone : filter (λ k, EqualFold k f = true) (dom raw) = ({[k]} : gset string)).
    { apply set_eq. intros k'. rewrite elem_of_filter, elem_of_singleton.
      split; [intros [Hk' Hin]; by apply Huniq | intros ->].
      split; [done | apply elem_of_dom; eauto]. }
    by rewrite Hone, elements_singleton.
Qed.

(** Renaming the key "kind" to "Kind" changes no field's reading, when no
    other key of the mapping is "kind" up to case. *)
Lemma find_key_rename_kind (raw : gmap string value) (v : value) (f : string) :
  raw !! "Kind" = None → raw !! "kind" = Some v →
  (∀ k, k ∈ dom raw → EqualFold k "kind" = true → k = "kind") →
  find_key (<["Kind" := v]> (delete "kind" raw)) f = find_key raw f.
Proof.
  intros HK Hk Huniq.
  assert (Hdom : ∀ k, k ∈ dom (<["Kind" := v]> (delete "kind" raw))
                      ↔ k = "Kind" ∨ (k ∈ dom raw ∧ k ≠ "kind")).
  { intros k. rewrite dom_insert_L, dom_delete_L. set_solver. }
  destruct (EqualFold f "kind") eqn:Hf.
  - (* the field reads "kind" on the one side and "Kind" on the other *)
    rewrite (find_key_unique raw f "kind" v Hk).
    + apply (find_key_unique _ f "Kind" v).
      * apply lookup_insert_eq.
      * rewrite EqualFold_sym. by apply (EqualFold_trans f "kind" "Kind").
      * intros k' Hin Hk'. apply Hdom in Hin as [-> | [Hin Hne]]; [done |].
        destruct Hne. apply (Huniq k' Hin).
        apply (EqualFold_trans k' f "kind"); done.
    + by rewrite EqualFold_sym.
    + intros k' Hin Hk'. apply (Huniq k' Hin).
      apply (EqualFold_trans k' f "kind"); done.
  - (* the field reads neither *)
    assert (HfK : f ≠ "Kind") by (intros ->; done).
    assert (Hfk : f ≠ "kind") by (intros ->; done).
    unfold find_key.
    rewrite lookup_insert_ne, lookup_delete_ne by done.
    destruct (raw !! f) as [x |]; [done |].
    assert (Hsame : filter (λ k, EqualFold k f = true)
                      (dom (<["Kind" := v]> (delete "kind" raw)))
                    = filter (λ k, EqualFold k f = true) (dom raw)).
    { apply set_eq. intros k. rewrite !elem_of_filter, Hdom.
      split.
      - intros [Hkf [-> | [Hin _]]]; [| done].
        assert (EqualFold f "kind" = true); [| congruence].
        rewrite EqualFold_sym. apply (EqualFold_trans "kind" "Kind" f); done.
      - intros [Hkf Hin]. split; [done |]. right. split; [done |].
        intros ->. rewrite EqualFold_sym in Hkf. congruence. }
    rewrite Hsame.
    destruct (elements _) as [| k rest] eqn:Hel; [done |].
    assert (Hkin : k ∈ filter (λ k, EqualFold k f = true) (dom raw)).
    { apply elem_of_elements. rewrite Hel. left. }
    apply elem_of_filter in Hkin as [Hkf _].
    rewrite lookup_insert_ne, lookup_delete_ne; [done | |].
    + intros <-. rewrite EqualFold_sym in Hkf. congruence.
    + intros <-. assert (EqualFold f "kind" = true); [| congruence].
      rewrite EqualFold_sym. apply (EqualFold_trans "kind" "Kind" f); done.
Qed.

(** *** Coercion of the fields *)

Lemma decode_fields_ext (hook : Hook) (raw raw' : gmap string value)
    (fields : list (string * FieldType)) (acc : gmap string FieldVal) :
  (∀ f, find_key raw f = find_key raw' f) →
  decode_fields hook raw fields acc = decode_fields hook raw' fields acc.
Proof.
  intros Hfind. revert acc.
  induction fields as [| [name t] rest IH]; intros acc; [done |].
  cbn [decode_fields]. rewrite (Hfind name).
  destruct (find_key raw' name) as [v |]; [| apply IH].
  destruct (decode_field hook name t v) as [x [e |]]; [done | apply IH].
Qed.

(** A field that is not declared is not touched. *)
Lemma decode_fields_other (hook : Hook) (raw : gmap string value)
    (fields : list (string * FieldType)) (acc : gmap string FieldVal) (g : string) :
  g ∉ fields.*1 →
  (decode_fields hook raw fields acc).1 !! g = acc !! g.
Proof.
  revert acc. induction fields as [| [name t] rest IH]; intros acc Hg; [done |].
  cbn [fmap list_fmap fst] in Hg. apply not_elem_of_cons in Hg as [Hne Hg].
  cbn [decode_fields].
  destruct (find_key raw name) as [v |]; [| by apply IH].
  destruct (decode_field hook name t v) as [x [e |]]; [done |].
  rewrite (IH _ Hg). by apply lookup_insert_ne.
Qed.

(** The coercion succeeds exactly when every field that reads a key can
    take the value under it. *)
Lemma decode_fields_success (hook : Hook) (raw : gmap string value)
    (fields : list (string * FieldType)) (acc : gmap string FieldVal) :
  (decode_fields hook raw fields acc).2 = None
  ↔ ∀ name t v, (name, t) ∈ fields → find_key raw name = Some v →
      (decode_field hook name t v).2 = None.
Proof.
  revert acc. induction fields as [| [name t] rest IH]; intros acc.
  - split; [intros _ ? ? ? Hin; by apply elem_of_nil in Hin | done].
  - cbn [decode_fields].
    destruct (find_key raw name) as [v |] eqn:Hfind.
    + destruct (decode_field hook name t v) as [x [e |]] eqn:Hdec; cbn.
      * split; [done |]. intros Hall.
        specialize (Hall name t v (list_elem_of_here _ _) Hfind).
        by rewrite Hdec in Hall.
      * rewrite IH. split.
        -- intros Hall name' t' v' Hin Hf.
           apply elem_of_cons in Hin as [Heq | Hin]; [| by eapply Hall].
           inversion Heq; subst. rewrite Hfind in Hf. inversion Hf; subst.
           by rewrite Hdec.
        -- intros Hall name' t' v' Hin. apply Hall. by right.
    + rewrite IH. split.
      * intros Hall name' t' v' Hin Hf.
        apply elem_of_cons in Hin as [Heq | Hin]; [| by eapply Hall].
        inversion Heq; subst. congruence.
      * intros Hall name' t' v' Hin. apply Hall. by right.
Qed.

(** After a successful coercion a declared field holds the coerced value of
    the key it reads, and its former value if it reads none. *)
Lemma decode_fields_lookup (hook : Hook) (raw : gmap string value)
    (fields : list (string * FieldType)) (acc : gmap string FieldVal)
    (name : string) (t : FieldType) :
  NoDup fields.*1 → (name, t) ∈ fields →
  (decode_fields hook raw fields acc).2 = None →
  (decode_fields hook raw fields acc).1 !! name =
    match find_key raw name with
    | Some v => Some (decode_field hook name t v).1
    | None => acc !! name
    end.
Proof.
  revert acc. induction fields as [| [name' t'] rest IH]; intros acc Hnd Hin Hok.
  - by apply elem_of_nil in Hin.
  - cbn [fmap list_fmap fst] in Hnd. apply NoDup_cons in Hnd as [Hfresh Hnd].
    cbn [decode_fields] in *.
    apply elem_of_cons in Hin as [Heq | Hin].
    + inversion Heq; subst name' t'.
      destruct (find_key raw name) as [v |].
      * destruct (decode_field hook name t v) as [x [e |]]; [done |]. cbn.
        rewrite (decode_fields_other _ _ _ _ _ Hfresh). apply lookup_insert_eq.
      * by apply decode_fields_other.
    + assert (Hne : name' ≠ name).
      { intros ->. apply Hfresh. apply list_elem_of_fmap. by exists (name, t). }
      destruct (find_key raw name') as [v' |].
      * destruct (decode_field hook name' t' v') as [x [e |]]; [done |].
        rewrite (IH _ Hnd Hin Hok).
        destruct (find_key raw name); [done |]. by apply lookup_insert_ne.
      * by apply IH.
Qed.

(** *** Durations *)

Lemma decode_field_duration_string (key s : string) :
  let coerced :=
    match ParseDuration s with
    | (ns, None) => (FDuration ns, None)
    | (_, Some e) => (FDuration 0, Some e)
    end in
  decode_field endpoint_hook key TDuration (VString s) = coerced
  ∧ decode_field endpoint_hook key TReadableDuration (VString s) = coerced.
Proof.
  unfold decode_field, endpoint_hook. cbn.
  by destruct (ParseDuration s) as [ns [e |]].
Qed.

Lemma decode_field_duration_number (key : string) (f : float) :
  decode_field endpoint_hook key TDuration (VFloat64 f)
    = (FDuration (float64_to_int64 f), None)
  ∧ decode_field endpoint_hook key TReadableDuration (VFloat64 f)
    = (FDuration (float64_to_int64 f), None).
Proof. done. Qed.

(** *** The fuel of [ParseDuration] *)

Lemma leadingInt_length (s : string) (x v : Z) (rest : string) :
  leadingInt s x = Some (v, rest) → (String.length rest ≤ String.length s)%nat.
Proof.
  revert x. induction s as [| c s IH]; intros x; cbn [leadingInt].
  - intros [= _ <-]. done.
  - destruct (is_digit c).
    + destruct (maxInt64 / 10 <? x); [done |].
      destruct (wrap64 (x * 10 + digit_val c) <? 0); [done |].
      intros Hrec. apply IH in Hrec. cbn. lia.
    + intros [= _ <-]. done.
Qed.

Lemma leadingInt_digit (c : ascii) (s : string) (x v : Z) (rest : string) :
  is_digit c = true → leadingInt (String c s) x = Some (v, rest) →
  (String.length rest ≤ String.length s)%nat.
Proof.
  intros Hc. cbn [leadingInt]. rewrite Hc.
  destruct (maxInt64 / 10 <? x); [done |].
  destruct (wrap64 (x * 10 + digit_val c) <? 0); [done |].
  apply leadingInt_length.
Qed.

Lemma leadingFraction_length (s : string) (x : Z) (scale : float) (o : bool) :
  (String.length (leadingFraction s x scale o).2 ≤ String.length s)%nat.
Proof.
  revert x scale o. induction s as [| c s IH]; intros x scale o; cbn [leadingFraction].
  - done.
  - destruct (is_digit c); [| done].
    cbn [String.length].
    destruct o; [specialize (IH x scale true); lia |].
    destruct (maxInt64 / 10 <? x); [specialize (IH x scale true); lia |].
    destruct (wrap64 (x * 10 + digit_val c) <? 0).
    + specialize (IH x scale true); lia.
    + specialize (IH (wrap64 (x * 10 + digit_val c)) (scale * 10)%float false). lia.
Qed.

Lemma leadingUnit_length (s : string) :
  (String.length (leadingUnit s).2 ≤ String.length s)%nat.
Proof.
  induction s as [| c s IH]; cbn [leadingUnit]; [done |].
  destruct (is_dot c || is_digit c); [done |].
  destruct (leadingUnit s) as [u rest]. cbn in *. lia.
Qed.

(** Every round of the loop shortens the string, so any fuel above its
    length gives the same result: the loop never ends for lack of fuel. *)
Lemma ParseDuration_loop_fuel (fuel1 fuel2 : nat) (orig s : string) (d : Z) :
  (String.length s < fuel1)%nat → (String.length s < fuel2)%nat →
  ParseDuration_loop fuel1 orig s d = ParseDuration_loop fuel2 orig s d.
Proof.
  revert fuel2 s d.
  induction fuel1 as [| fuel1 IH]; intros fuel2 s d H1 H2; [lia |].
  destruct fuel2 as [| fuel2]; [lia |].
  destruct s as [| c s]; [done |].
  cbn [ParseDuration_loop].
  destruct (is_dot c || is_digit c) eqn:Hc; [| done]. cbn [negb].
  destruct (leadingInt (String c s) 0) as [[v s1] |] eqn:Hint; [| done].
  pose proof (leadingInt_length _ _ _ _ Hint) as Hlen1.
  assert (Htail : ∀ f scale s2,
            (String.length s2 < String.length (String c s))%nat →
            (let '(u, s3) := leadingUnit s2 in
             if String.eqb u "" then (0, Some (missing_unit orig))
             else
               match unitMap u with
               | None => (0, Some (unknown_unit u orig))
               | Some unit =>
                   if maxInt64 / unit <? v then (0, Some (invalid_duration orig))
                   else
                     let v := v * unit in
                     let v :=
                       if 0 <? f then
                         wrap64 (v + float64_to_int64
                                       (int64_to_float64 f
                                        * (int64_to_float64 unit / scale))%float)
                       else v in
                     if (0 <? f) && (v <? 0) then (0, Some (invalid_duration orig))
                     else
                       let d := wrap64 (d + v) in
                       if d <? 0 then (0, Some (invalid_duration orig))
                       else ParseDuration_loop fuel1 orig s3 d
               end)
            = (let '(u, s3) := leadingUnit s2 in
               if String.eqb u "" then (0, Some (missing_unit orig))
               else
                 match unitMap u with
                 | None => (0, Some (unknown_unit u orig))
                 | Some unit =>
                     if maxInt64 / unit <? v then (0, Some (invalid_duration orig))
                     else
                       let v := v * unit in
                       let v :=
                         if 0 <? f then
                           wrap64 (v + float64_to_int64
                                         (int64_to_float64 f
                                          * (int64_to_float64 unit / scale))%float)
                         else v in
                       if (0 <? f) && (v <? 0) then (0, Some (invalid_duration orig))
                       else
                         let d := wrap64 (d + v) in
                         if d <? 0 then (0, Some (invalid_duration orig))
                         else ParseDuration_loop fuel2 orig s3 d
                 end)).
  { intros f scale s2 Hshort.
    pose proof (leadingUnit_length s2) as Hunit.
    destruct (leadingUnit s2) as [u s3].
    destruct (String.eqb u ""); [done |].
    destruct (unitMap u) as [unit |]; [| done].
    destruct (maxInt64 / unit <? v); [done |]. cbn zeta.
    match goal with |- context [if ?b then (0, Some _) else _] => destruct b end; [done |].
    match goal with |- context [if ?b then (0, Some _) else _] => destruct b end; [done |].
    apply IH; cbn [snd String.length] in *; lia. }
  destruct s1 as [| c1 s1'].
  - destruct (negb (String.length (String c s) =? String.length "")%nat) eqn:Hpre;
      [| done].
    cbn [negb andb]. apply (Htail 0 1%float ""). cbn. lia.
  - destruct (is_dot c1).
    + pose proof (leadingFraction_length s1' 0 1%float false) as Hfr.
      destruct (leadingFraction s1' 0 1%float false) as [[f scale] s2].
      match goal with |- context [if ?b then (0, Some _) else _] => destruct b end;
        [done |].
      apply (Htail f scale s2). cbn [snd String.length] in *. lia.
    + destruct (negb (String.length (String c s) =? String.length (String c1 s1'))%nat)
        eqn:Hpre; [| done].
      cbn [negb andb]. apply (Htail 0 1%float (String c1 s1')).
      apply negb_true_iff, Nat.eqb_neq in Hpre. lia.
Qed.

(** *** What the grammar denotes *)

Lemma wrap64_small (z : Z) : 0 ≤ z ≤ maxInt64 → wrap64 z = z.
Proof.
  intros Hz. unfold wrap64, maxInt64 in *.
  rewrite Z.mod_small; lia.
Qed.

Lemma String_length_app (a b : string) :
  String.length (a +:+ b) = (String.length a + String.length b)%nat.
Proof.
  induction a as [| c a IH]; [done |].
  change (String c a +:+ b) with (String c (a +:+ b)). cbn [String.length]. lia.
Qed.

Lemma of_uint_acc_ge (d : Decimal.uint) (acc : nat) :
  (acc ≤ Nat.of_uint_acc d acc)%nat.
Proof.
  revert acc. induction d as [| d' IH | d' IH | d' IH | d' IH | d' IH
                                | d' IH | d' IH | d' IH | d' IH | d' IH];
    intros acc; cbn [Nat.of_uint_acc]; [done | ..];
    rewrite Nat.tail_mul_spec;
    (etransitivity; [| apply IH]); lia.
Qed.

(** One digit of the induction below: [step] is the step for the digit at
    hand, [Hfit] the bound on the number read so far. *)
Ltac digit_case step Hfit :=
  cbn [Nat.of_uint_acc NilEmpty.string_of_uint] in *;
  rewrite Nat.tail_mul_spec in *;
  exact (step Hfit).

(** [leadingInt] reads back the digits of a number that fits. *)
Lemma leadingInt_uint (d : Decimal.uint) (acc : nat) (rest : string) :
  ends_digits rest →
  Z.of_nat (Nat.of_uint_acc d acc) ≤ maxInt64 →
  leadingInt (NilEmpty.string_of_uint d +:+ rest) (Z.of_nat acc)
  = Some (Z.of_nat (Nat.of_uint_acc d acc), rest).
Proof.
  intros Hrest. revert acc.
  assert (Hstep : ∀ (k : nat) (c : ascii) (u : Decimal.uint),
            is_digit c = true → digit_val c = Z.of_nat k →
            (∀ acc, Z.of_nat (Nat.of_uint_acc u acc) ≤ maxInt64 →
                    leadingInt (NilEmpty.string_of_uint u +:+ rest) (Z.of_nat acc)
                    = Some (Z.of_nat (Nat.of_uint_acc u acc), rest)) →
            ∀ acc, Z.of_nat (Nat.of_uint_acc u (k + 10 * acc)) ≤ maxInt64 →
                   leadingInt (String c (NilEmpty.string_of_uint u +:+ rest))
                     (Z.of_nat acc)
                   = Some (Z.of_nat (Nat.of_uint_acc u (k + 10 * acc)), rest)).
  { intros k c u Hc Hk IH acc Hfit.
    pose proof (of_uint_acc_ge u (k + 10 * acc)) as Hge.
    assert (Hnext : 0 ≤ Z.of_nat acc * 10 + Z.of_nat k ≤ maxInt64) by lia.
    cbn [leadingInt]. rewrite Hc, Hk.
    assert (Hdiv : Z.of_nat acc ≤ maxInt64 / 10).
    { apply Z.div_le_lower_bound; lia. }
    destruct (Z.ltb_spec (maxInt64 / 10) (Z.of_nat acc)); [lia |].
    rewrite (wrap64_small _ Hnext).
    destruct (Z.ltb_spec (Z.of_nat acc * 10 + Z.of_nat k) 0); [lia |].
    replace (Z.of_nat acc * 10 + Z.of_nat k) with (Z.of_nat (k + 10 * acc)) by lia.
    by apply IH. }
  induction d as [| d' IH | d' IH | d' IH | d' IH | d' IH
                    | d' IH | d' IH | d' IH | d' IH | d' IH]; intros acc Hfit.
  - change (NilEmpty.string_of_uint Decimal.Nil +:+ rest) with rest.
    cbn [Nat.of_uint_acc]. destruct rest as [| c rest]; [done |].
    cbn [leadingInt]. unfold ends_digits in Hrest. by rewrite Hrest.
  - digit_case (Hstep 0%nat "0"%char d' eq_refl eq_refl IH acc) Hfit.
  - digit_case (Hstep 1%nat "1"%char d' eq_refl eq_refl IH acc) Hfit.
  - digit_case (Hstep 2%nat "2"%char d' eq_refl eq_refl IH acc) Hfit.
  - digit_case (Hstep 3%nat "3"%char d' eq_refl eq_refl IH acc) Hfit.
  - digit_case (Hstep 4%nat "4"%char d' eq_refl eq_refl IH acc) Hfit.
  - digit_case (Hstep 5%nat "5"%char d' eq_refl eq_refl IH acc) Hfit.
  - digit_case (Hstep 6%nat "6"%char d' eq_refl eq_refl IH acc) Hfit.
  - digit_case (Hstep 7%nat "7"%char d' eq_refl eq_refl IH acc) Hfit.
  - digit_case (Hstep 8%nat "8"%char d' eq_refl eq_refl IH acc) Hfit.
  - digit_case (Hstep 9%nat "9"%char d' eq_refl eq_refl IH acc) Hfit.
Qed.

(** The decimal text of a number is not empty, begins with a digit, and
    reads back as the number. *)
Lemma decimal_value (n : nat) : Nat.of_uint_acc (Nat.to_uint n) 0 = n.
Proof. exact (DecimalNat.Unsigned.of_to n). Qed.

Lemma decimal_head (n : nat) :
  ∃ c t, decimal n = String c t ∧ is_digit c = true.
Proof.
  unfold decimal.
  destruct (Nat.to_uint n) as [| d | d | d | d | d | d | d | d | d | d] eqn:Hd;
    cbn [NilEmpty.string_of_uint]; try (by eexists _, _).
  pose proof (decimal_value n) as Hv. rewrite Hd in Hv. cbn in Hv. subst n.
  by cbn in Hd.
Qed.

Lemma leadingInt_decimal (n : nat) (rest : string) :
  ends_digits rest → Z.of_nat n ≤ maxInt64 →
  leadingInt (decimal n +:+ rest) 0 = Some (Z.of_nat n, rest).
Proof.
  intros Hrest Hfit.
  pose proof (leadingInt_uint (Nat.to_uint n) 0 rest Hrest) as Hread.
  rewrite decimal_value in Hread. exact (Hread Hfit).
Qed.

(** The unit suffixes: none is empty, none holds a digit or a point, and
    each counts at least a nanosecond. *)
Lemma unitMap_cases (u : string) (unit : Z) :
  unitMap u = Some unit →
  (u, unit) ∈ [ ("ns", Nanosecond); ("us", Microsecond);
                (micro +:+ "s", Microsecond); (mu +:+ "s", Microsecond);
                ("ms", Millisecond); ("s", Second); ("m", Minute); ("h", Hour) ].
Proof.
  unfold unitMap. intros Hu.
  repeat match type of Hu with
         | (if String.eqb ?a ?b then _ else _) = _ =>
             destruct (String.eqb_spec a b) as [-> | _];
             [inversion Hu; subst; set_solver |]
         end.
  done.
Qed.

Lemma leadingUnit_start (rest : string) :
  starts_number rest → leadingUnit rest = ("", rest).
Proof.
  destruct rest as [| c rest]; [done |]. cbn [starts_number leadingUnit].
  by intros ->.
Qed.

Lemma unit_suffix (u : string) (unit : Z) (rest : string) :
  unitMap u = Some unit → starts_number rest →
  0 < unit
  ∧ String.eqb u "" = false
  ∧ (∃ c t, u +:+ rest = String c t ∧ is_dot c = false ∧ is_digit c = false)
  ∧ leadingUnit (u +:+ rest) = (u, rest).
Proof.
  intros Hu Hrest. pose proof (leadingUnit_start rest Hrest) as Hstart.
  apply unitMap_cases in Hu.
  repeat (apply elem_of_cons in Hu as [[= -> ->] | Hu];
          [ split; [done |]; split; [done |]; split; [by eexists _, _ |];
            cbv [String.append micro mu]; cbn [leadingUnit]; rewrite Hstart;
            by vm_compute
          | ]).
  by apply elem_of_nil in Hu.
Qed.

(** One round of the loop on a whole number and its unit. *)
Lemma ParseDuration_round (fuel : nat) (orig : string) (n : nat) (u : string)
    (unit : Z) (rest : string) (d : Z) :
  unitMap u = Some unit → starts_number rest →
  0 ≤ d → d + Z.of_nat n * unit ≤ maxInt64 →
  ParseDuration_loop (S fuel) orig (decimal n +:+ (u +:+ rest)) d
  = ParseDuration_loop fuel orig rest (d + Z.of_nat n * unit).
Proof.
  intros Hu Hrest Hd Hfit.
  destruct (unit_suffix u unit rest Hu Hrest)
    as (Hunit & Hne & (cu & tu & Hhead & Hdot & Hdig) & Hscan).
  assert (Hn : Z.of_nat n ≤ maxInt64) by nia.
  destruct (decimal_head n) as (c & t & Hdec & Hc).
  assert (Hread : leadingInt (String c (t +:+ (u +:+ rest))) 0
                  = Some (Z.of_nat n, u +:+ rest)).
  { change (String c (t +:+ (u +:+ rest))) with (String c t +:+ (u +:+ rest)).
    rewrite <- Hdec. apply leadingInt_decimal; [| done].
    rewrite Hhead. exact Hdig. }
  assert (Hlen : (String.length (String c (t +:+ (u +:+ rest)))
                  =? String.length (u +:+ rest))%nat = false).
  { apply Nat.eqb_neq. cbn [String.length]. rewrite String_length_app. lia. }
  rewrite Hdec.
  change (String c t +:+ (u +:+ rest)) with (String c (t +:+ (u +:+ rest))).
  cbn [ParseDuration_loop]. rewrite Hc, orb_true_r. cbn [negb].
  rewrite Hread, Hlen. cbn [negb andb].
  rewrite Hhead, Hdot. cbn [andb]. rewrite <- Hhead, Hscan, Hne, Hu.
  assert (Hdiv : Z.of_nat n ≤ maxInt64 / unit).
  { apply Z.div_le_lower_bound; lia. }
  destruct (Z.ltb_spec (maxInt64 / unit) (Z.of_nat n)); [lia |].
  cbn [Z.ltb Z.compare andb].
  rewrite wrap64_small by lia.
  destruct (Z.ltb_spec (d + Z.of_nat n * unit) 0); [lia |]. reflexivity.
Qed.

(** The text of groups begins with a digit, if there is a group. *)
Lemma render_starts_number (groups : list (nat * string)) :
  starts_number (render groups).
Proof.
  destruct groups as [| [n u] rest]; [done |]. cbn [render].
  destruct (decimal_head n) as (c & t & -> & Hc).
  change (String c t +:+ ?x) with (String c (t +:+ x)).
  cbn [starts_number]. by rewrite Hc, orb_true_r.
Qed.

(** The nanoseconds of groups with known units are not negative. *)
Lemma total_nonneg (groups : list (nat * string)) :
  Forall (λ g, is_Some (unitMap g.2)) groups → 0 ≤ total groups.
Proof.
  induction groups as [| [n u] rest IH]; [done |]. intros Hunits.
  apply Forall_cons in Hunits as [[unit Hu] Hunits]. cbn [snd] in Hu.
  cbn [total]. rewrite Hu. change (default 0 (Some unit)) with unit.
  destruct (unit_suffix u unit "" Hu I) as [Hpos _].
  specialize (IH Hunits). nia.
Qed.

(** The loop on the text of groups adds up their nanoseconds. *)
Lemma ParseDuration_loop_render (groups : list (nat * string)) :
  ∀ (fuel : nat) (orig : string) (d : Z),
    Forall (λ g, is_Some (unitMap g.2)) groups →
    (length groups < fuel)%nat →
    0 ≤ d → d + total groups ≤ maxInt64 →
    ParseDuration_loop fuel orig (render groups) d = (d + total groups, None).
Proof.
  induction groups as [| [n u] rest IH]; intros fuel orig d Hunits Hfuel Hd Hfit.
  - destruct fuel; [cbn in Hfuel; lia |]. cbn. by rewrite Z.add_0_r.
  - pose proof (total_nonneg _ Hunits) as Hall.
    apply Forall_cons in Hunits as [[unit Hu] Hunits]. cbn [snd] in Hu.
    pose proof (total_nonneg _ Hunits) as Htot.
    destruct fuel as [| fuel]; [cbn in Hfuel; lia |]. cbn [length] in Hfuel.
    cbn [render total] in *. rewrite Hu in *.
    change (default 0 (Some unit)) with unit in *.
    destruct (unit_suffix u unit "" Hu I) as [Hpos _].
    rewrite (ParseDuration_round fuel orig n u unit (render rest) d Hu
               (render_starts_number rest) Hd) by nia.
    rewrite IH; [f_equal; lia | done | lia | nia | lia].
Qed.

(** The text of groups is at least as long as their number, is not empty
    and is not the bare zero. *)
Lemma render_length (groups : list (nat * string)) :
  (length groups ≤ String.length (render groups))%nat.
Proof.
  induction groups as [| [n u] rest IH]; [done |]. cbn [render length].
  destruct (decimal_head n) as (c & t & -> & _).
  change (String c t +:+ ?x) with (String c (t +:+ x)).
  cbn [String.length]. rewrite !String_length_app. lia.
Qed.

Lemma render_head (n : nat) (u : string) (unit : Z) (rest : list (nat * string)) :
  unitMap u = Some unit →
  ∃ c t, render ((n, u) :: rest) = String c t
         ∧ is_digit c = true ∧ t ≠ EmptyString.
Proof.
  intros Hu. cbn [render].
  destruct (decimal_head n) as (c & t & -> & Hc).
  destruct (unit_suffix u unit (render rest) Hu (render_starts_number rest))
    as (_ & _ & (cu & tu & Hhead & _) & _).
  exists c, (t +:+ (u +:+ render rest)). split; [done |]. split; [done |].
  rewrite Hhead. by destruct t.
Qed.

Lemma digit_no_sign (c : ascii) :
  is_digit c = true → Ascii.eqb c "-" || Ascii.eqb c "+" = false.
Proof.
  intros Hc.
  destruct (Ascii.eqb_spec c "-") as [-> | _]; [by vm_compute in Hc |].
  destruct (Ascii.eqb_spec c "+") as [-> | _]; [by vm_compute in Hc |]. done.
Qed.

(** What [ParseDuration] does once the sign is read, on the text of
    groups. *)
Lemma ParseDuration_body (groups : list (nat * string)) (orig : string) :
  groups ≠ [] →
  Forall (λ g, is_Some (unitMap g.2)) groups →
  total groups ≤ maxInt64 →
  String.eqb (render groups) "0" = false
  ∧ String.eqb (render groups) "" = false
  ∧ ParseDuration_loop (S (String.length (render groups))) orig (render groups) 0
    = (total groups, None).
Proof.
  intros Hne Hunits Hfit. destruct groups as [| [n u] rest]; [done |].
  pose proof Hunits as Hall.
  apply Forall_cons in Hunits as [[unit Hu] _]. cbn [snd] in Hu.
  destruct (render_head n u unit rest Hu) as (c & t & Hhead & Hc & Ht).
  split; [| split].
  - rewrite Hhead. apply String.eqb_neq. intros [= -> ->]. done.
  - rewrite Hhead. by apply String.eqb_neq.
  - rewrite ParseDuration_loop_render; [done | done | | done | lia].
    pose proof (render_length ((n, u) :: rest)). lia.
Qed.

(** The grammar of durations: a text of whole numbers, each with a unit of
    the table, is read as the sum of its groups, and a sign in front is
    read with it. *)
Lemma ParseDuration_groups (groups : list (nat * string)) :
  groups ≠ [] →
  Forall (λ g, is_Some (unitMap g.2)) groups →
  total groups ≤ maxInt64 →
  ParseDuration (render groups) = (total groups, None)
  ∧ ParseDuration ("+" +:+ render groups) = (total groups, None)
  ∧ ParseDuration ("-" +:+ render groups) = (- total groups, None).
Proof.
  intros Hne Hunits Hfit.
  assert (Hbody := λ orig, ParseDuration_body groups orig Hne Hunits Hfit).
  assert (Hhead : ∃ c t, render groups = String c t ∧ is_digit c = true).
  { destruct groups as [| [n u] rest]; [done |].
    apply Forall_cons in Hunits as [[unit Hu] _]. cbn [snd] in Hu.
    destruct (render_head n u unit rest Hu) as (c & t & ? & ? & _).
    by exists c, t. }
  split; [| split].
  - destruct Hhead as (c & t & Hhead & Hc).
    destruct (Hbody (render groups)) as (Hzero & Hempty & Hloop).
    unfold ParseDuration. rewrite Hhead in *.
    rewrite (digit_no_sign c Hc), Hzero, Hempty, Hloop. done.
  - destruct (Hbody ("+" +:+ render groups)) as (Hzero & Hempty & Hloop).
    change ("+" +:+ render groups) with (String "+" (render groups)) in *.
    unfold ParseDuration.
    change (Ascii.eqb "+" "-" || Ascii.eqb "+" "+") with true.
    change (Ascii.eqb "+" "-") with false. cbv iota.
    rewrite Hzero, Hempty, Hloop. done.
  - destruct (Hbody ("-" +:+ render groups)) as (Hzero & Hempty & Hloop).
    change ("-" +:+ render groups) with (String "-" (render groups)) in *.
    unfold ParseDuration.
    change (Ascii.eqb "-" "-" || Ascii.eqb "-" "+") with true.
    change (Ascii.eqb "-" "-") with true. cbv iota.
    rewrite Hzero, Hempty, Hloop. done.
Qed.

(** *** The decoder of the endpoint over the model *)

Section ModelDecoder.

Variable registry : gmap string (list (string * FieldType)).

Context (A : @Agent (model_Structs registry) (model_Mapstructure registry)).

Lemma decodeConfigEntry_model (raw : gmap string value) :
  @stringToReadableDurationFunc _ _ A = stringToReadableDurationHook →
  @decodeConfigEntry _ _ A raw =
    match discriminator raw with
    | None => (None, Some MissingKind)
    | Some (VString kind) =>
        match registry !! kind with
        | None => (None, Some (UnknownKind kind))
        | Some shape =>
            let '(fields, err) :=
              decode_fields endpoint_hook raw (all_fields shape) (fresh_fields shape) in
            (Some (mkTypedEntry kind shape fields), err)
        end
    | Some _ => (None, Some InvalidKindType)
    end.
Proof.
  intros Hhook. rewrite decodeConfigEntry_cases.
  destruct (discriminator raw) as [[| | | kind | |] |]; try done.
  cbn [MakeConfigEntry model_Structs]. unfold resolve.
  destruct (registry !! kind) as [shape |]; [| done].
  cbn. rewrite Hhook. reflexivity.
Qed.



End ModelDecoder.

(** *** Runs of the decoder *)

(** In a list that holds at most one element with the property, the first
    such element is the same in every order. *)
Lemma find_Permutation {X : Type} (P : X → bool) (l1 l2 : list X) :
  l1 ≡ₚ l2 →
  (∀ x y, x ∈ l1 → y ∈ l1 → P x = true → P y = true → x = y) →
  List.find P l1 = List.find P l2.
Proof.
  intros Hperm Huniq.
  destruct (List.find P l1) as [x |] eqn:H1, (List.find P l2) as [y |] eqn:H2;
    [| | | done].
  - apply find_some in H1 as [Hx HPx]. apply find_some in H2 as [Hy HPy].
    apply list_elem_of_In in Hx. apply list_elem_of_In in Hy.
    rewrite <- Hperm in Hy. f_equal. by apply Huniq.
  - apply find_some in H1 as [Hx HPx]. apply list_elem_of_In in Hx.
    rewrite Hperm in Hx. apply list_elem_of_In in Hx.
    by rewrite (find_none _ _ H2 x Hx) in HPx.
  - apply find_some in H2 as [Hy HPy]. apply list_elem_of_In in Hy.
    rewrite <- Hperm in Hy. apply list_elem_of_In in Hy.
    by rewrite (find_none _ _ H1 y Hy) in HPy.
Qed.

Lemma Range_ok_forward : Range_ok forward.
Proof. by intros raw field. Qed.

Lemma Range_ok_backward : Range_ok backward.
Proof. intros raw field. apply reverse_Permutation. Qed.

Lemma Range_ok_canonical : Range_ok canonical.
Proof.
  intros raw field. unfold canonical.
  rewrite <- elements_disj_union.
  - apply elements_proper. intros k.
    rewrite elem_of_union, !elem_of_filter.
    destruct (decide (EqualFold k field = true)); tauto.
  - intros k. rewrite !elem_of_filter. tauto.
Qed.

(** Without two keys that are equal up to case, the key a field reads does
    not depend on the order of the range. *)
Lemma find_key_in_order (range1 range2 : Range) (raw : gmap string value)
    (field : string) :
  Range_ok range1 → Range_ok range2 → no_fold_clash raw →
  find_key_in (range1 raw field) raw field = find_key_in (range2 raw field) raw field.
Proof.
  intros H1 H2 Hclash. unfold find_key_in.
  destruct (raw !! field); [done |].
  rewrite (find_Permutation (λ k, EqualFold k field) (range1 raw field)
             (range2 raw field)); [done | by rewrite (H1 raw field), (H2 raw field) |].
  intros x y Hx Hy HPx HPy.
  rewrite (H1 raw field) in Hx, Hy. apply elem_of_elements in Hx, Hy.
  apply Hclash; [done | done |].
  apply (EqualFold_trans x field y); [done | by rewrite EqualFold_sym].
Qed.

(** [find_key] reads the keys in the canonical order. *)
Lemma find_key_canonical (raw : gmap string value) (field : string) :
  find_key raw field = find_key_in (canonical raw field) raw field.
Proof.
  unfold find_key, find_key_in, canonical.
  destruct (raw !! field); [done |].
  destruct (elements (filter (λ k, EqualFold k field = true) (dom raw)))
    as [| k ks] eqn:Hks.
  - rewrite app_nil_l.
    destruct (List.find _ _) as [k |] eqn:Hfind; [| done].
    apply find_some in Hfind as [Hk HPk].
    apply list_elem_of_In, elem_of_elements, elem_of_filter in Hk as [Hno _].
    by destruct Hno.
  - assert (Hk : k ∈ elements (filter (λ k, EqualFold k field = true) (dom raw)))
      by (rewrite Hks; left).
    apply elem_of_elements, elem_of_filter in Hk as [HPk _].
    cbn [app List.find]. by rewrite HPk.
Qed.

Lemma decode_fields_in_ext (range1 range2 : Range) (hook : Hook)
    (raw : gmap string value) (fields : list (string * FieldType)) :
  (∀ field, find_key_in (range1 raw field) raw field
            = find_key_in (range2 raw field) raw field) →
  ∀ acc, decode_fields_in range1 hook raw fields acc
         = decode_fields_in range2 hook raw fields acc.
Proof.
  intros Heq. induction fields as [| [name t] rest IH]; intros acc; [done |].
  cbn [decode_fields_in]. rewrite (Heq name).
  destruct (find_key_in (range2 raw name) raw name) as [v |]; [| by apply IH].
  destruct (decode_field hook name t v) as [x [e |]]; [done |]. by apply IH.
Qed.

Lemma decode_fields_canonical (hook : Hook) (raw : gmap string value)
    (fields : list (string * FieldType)) :
  ∀ acc, decode_fields hook raw fields acc
         = decode_fields_in canonical hook raw fields acc.
Proof.
  induction fields as [| [name t] rest IH]; intros acc; [done |].
  cbn [decode_fields decode_fields_in]. rewrite find_key_canonical.
  destruct (find_key_in (canonical raw name) raw name) as [v |]; [| by apply IH].
  destruct (decode_field hook name t v) as [x [e |]]; [done |]. by apply IH.
Qed.

Section RunFacts.

Variable registry : gmap string (list (string * FieldType)).

(** The decoder of the endpoint in a run. *)
Lemma decodeConfigEntry_run (range : Range)
    (A : @Agent (model_Structs registry) (run_Mapstructure registry range))
    (raw : gmap string value) :
  @decodeConfigEntry _ _ A raw =
    match discriminator raw with
    | None => (None, Some MissingKind)
    | Some (VString kind) =>
        match registry !! kind with
        | None => (None, Some (UnknownKind kind))
        | Some shape =>
            let '(fields, err) :=
              decode_fields_in range
                (ComposeHooks [StringToTimeDurationHook;
                               @stringToReadableDurationFunc _ _ A])
                raw (all_fields shape) (fresh_fields shape) in
            (Some (mkTypedEntry kind shape fields), err)
        end
    | Some _ => (None, Some InvalidKindType)
    end.
Proof.
  rewrite decodeConfigEntry_cases.
  destruct (discriminator raw) as [[| | | kind | |] |]; try done.
  cbn [MakeConfigEntry model_Structs]. unfold resolve.
  destruct (registry !! kind) as [shape |]; [| done].
  reflexivity.
Qed.

(** The model of the decoder library is the run in the canonical order. *)
Lemma decodeConfigEntry_canonical
    (A : @Agent (model_Structs registry) (model_Mapstructure registry))
    (A' : @Agent (model_Structs registry) (run_Mapstructure registry canonical))
    (raw : gmap string value) :
  @stringToReadableDurationFunc _ _ A = stringToReadableDurationHook →
  @stringToReadableDurationFunc _ _ A' = stringToReadableDurationHook →
  @decodeConfigEntry _ _ A raw = @decodeConfigEntry _ _ A' raw.
Proof.
  intros Hhook Hhook'.
  rewrite (decodeConfigEntry_model registry A raw Hhook), decodeConfigEntry_run, Hhook'.
  destruct (discriminator raw) as [[| | | kind | |] |]; try done.
  destruct (registry !! kind) as [shape |]; [| done].
  by rewrite decode_fields_canonical.
Qed.


End RunFacts.

End SpecModelFacts.

(** ** Examples *)

Module Examples.

Import Sample.

#[local] Open Scope Z_scope.

(** *** The endpoint on sample requests *)

Example Get_kind_and_name :
  calls (configGet (request "GET" "/v1/config/web/api" None) fresh).2
  = [("ConfigEntry.Get", QueryArgs (ConfigEntryQuery.mk "web" "api" "" ""))].
Proof. reflexivity. Qed.

Example Get_kind_only :
  calls (configGet (request "GET" "/v1/config/web" None) fresh).2
  = [("ConfigEntry.List", QueryArgs (ConfigEntryQuery.mk "web" "" "" ""))].
Proof. reflexivity. Qed.

Example Get_name_with_slash :
  pathArgs (request "GET" "/v1/config/web/api/v2" None) = ["web"; "api/v2"].
Proof. reflexivity. Qed.

Example Delete_kind_only :
  configDelete (request "DELETE" "/v1/config/web" None) fresh
  = ((None, None),
     mkWorld (mkResponseWriter (Some 400)
                "Must provide both a kind and name to delete") []).
Proof. reflexivity. Qed.

Example Delete_unregistered_kind :
  configDelete (request "DELETE" "/v1/config/web/api" None) fresh
  = ((None, None),
     mkWorld (mkResponseWriter (Some 400) "invalid config entry kind: web") []).
Proof. reflexivity. Qed.

Example Put_not_allowed :
  Config (request "PUT" "/v1/config/web" None) fresh
  = ((None, Some (MethodNotAllowedError "PUT" ["GET"; "DELETE"])), fresh).
Proof. reflexivity. Qed.

Example decode_resolver :
  let r := decodeConfigEntry resolver_raw in
  r.2 = None
  ∧ field_of r "Kind" = Some (SpecModel.FString "service-resolver")
  ∧ field_of r "Name" = Some (SpecModel.FString "web")
  ∧ field_of r "DefaultSubset" = Some (SpecModel.FString "")
  ∧ field_of r "ConnectTimeout" = Some (SpecModel.FDuration (3600 * SpecModel.Second))
  ∧ field_of r "RequestTimeout" = Some (SpecModel.FDuration (5 * SpecModel.Second))
  ∧ field_of r "extra" = None.
Proof. by vm_compute. Qed.

End Examples.

(** ** The theorems at sample inputs *)

Module Witnesses.

Import Sample.

#[local] Open Scope Z_scope.

Lemma configGet_empty_path_calls_List_witness :
  pathArgs (request "GET" "/v1/config/" None) = [""]
  ∧ configGet (request "GET" "/v1/config/" None) fresh
    = ((Some (IndexedReply []), None),
       mkWorld (mkResponseWriter None "")
         [("ConfigEntry.List", QueryArgs (ConfigEntryQuery.mk "" "" "" ""))]).
Proof.
  exact (configGet_empty_path_calls_List
           (request "GET" "/v1/config/" None) fresh (mkResponseWriter None "") "" ""
           eq_refl eq_refl).
Defined.

Lemma configDelete_cardinality_witness :
  configDelete (request "DELETE" "/v1/config/web" None) fresh
    = ((None, None),
       mkWorld (mkResponseWriter (Some 400)
                  "Must provide both a kind and name to delete") [])
  ∧ calls (configDelete (request "DELETE" "/v1/config/proxy-defaults/global" None) fresh).2
    = [("ConfigEntry.Delete",
        RequestArgs (ConfigEntryRequest.mk "" ""
                       (MakeConfigEntry "proxy-defaults" "global").1 ""))].
Proof.
  split.
  - apply (proj1 (configDelete_cardinality
                    (request "DELETE" "/v1/config/web" None) fresh)).
    by vm_compute.
  - rewrite (proj1 (proj2 (configDelete_cardinality
                      (request "DELETE" "/v1/config/proxy-defaults/global" None) fresh))
               "proxy-defaults" "global"
               (MakeConfigEntry "proxy-defaults" "global").1
               eq_refl eq_refl).
    reflexivity.
Defined.

Lemma Config_method_dispatch_witness :
  Config (request "GET" "/v1/config/web" None) fresh
    = configGet (request "GET" "/v1/config/web" None) fresh
  ∧ Config (request "DELETE" "/v1/config/web" None) fresh
    = configDelete (request "DELETE" "/v1/config/web" None) fresh
  ∧ Config (request "PUT" "/v1/config/web" None) fresh
    = ((None, Some (MethodNotAllowedError "PUT" ["GET"; "DELETE"])), fresh).
Proof.
  split; [| split].
  - by apply (proj1 (Config_method_dispatch (request "GET" "/v1/config/web" None) fresh)).
  - by apply (proj1 (proj2 (Config_method_dispatch
                              (request "DELETE" "/v1/config/web" None) fresh))).
  - by apply (proj2 (proj2 (Config_method_dispatch
                              (request "PUT" "/v1/config/web" None) fresh))).
Defined.

Lemma decode_missing_or_invalid_kind_witness :
  decodeConfigEntry (∅ : gmap string value) = (None, Some MissingKind)
  ∧ decodeConfigEntry shadowed_kind_raw = (None, Some InvalidKindType).
Proof.
  split.
  - by apply (proj1 (decode_missing_or_invalid_kind ∅)).
  - by apply (proj2 (decode_missing_or_invalid_kind shadowed_kind_raw) (VFloat64 5)).
Defined.

Lemma unknown_kind_is_BadRequest_witness :
  decodeConfigEntry unknown_kind_raw = (None, Some (SpecModel.UnknownKind "web"))
  ∧ ConfigApply (request "PUT" "/v1/config" (Some (object_text [("Kind", "web")]))) fresh
    = ((None, Some (BadRequestError
                      "Request decoding failed: invalid config entry kind: web")),
       fresh).
Proof.
  assert (Hd : discriminator unknown_kind_raw = Some (VString "web"))
    by (by vm_compute).
  assert (Hm : MakeConfigEntry "web" "" = (None, Some (SpecModel.UnknownKind "web")))
    by (by vm_compute).
  destruct (unknown_kind_is_BadRequest unknown_kind_raw "web" None
              (SpecModel.UnknownKind "web") Hd Hm) as [Hdec Hreq].
  split; [exact Hdec |].
  apply (Hreq (request "PUT" "/v1/config" (Some (object_text [("Kind", "web")]))) fresh).
  by vm_compute.
Defined.

Lemma malformed_requests_make_no_call_witness :
  calls (configDelete (request "DELETE" "/v1/config/web" None) fresh).2 = []
  ∧ calls (configDelete (request "DELETE" "/v1/config/web/api" None) fresh).2 = []
  ∧ ∃ reason,
      ConfigApply (request "PUT" "/v1/config" (Some (object_text [("Name", "web")]))) fresh
      = ((None, Some (BadRequestError reason)), fresh).
Proof.
  split; [| split].
  - apply (proj1 (malformed_requests_make_no_call
                    (request "DELETE" "/v1/config/web" None) fresh)).
    by vm_compute.
  - apply (proj1 (proj2 (malformed_requests_make_no_call
                           (request "DELETE" "/v1/config/web/api" None) fresh))
             "web" "api"); by vm_compute.
  - apply (proj1 (proj2 (proj2 (malformed_requests_make_no_call
             (request "PUT" "/v1/config" (Some (object_text [("Name", "web")]))) fresh)))).
    right. by vm_compute.
Defined.

Lemma Config_empty_path_reaches_backend_witness :
  length (pathArgs (request "GET" "/v1/config/" None)) = 1%nat
  ∧ resp (Config (request "GET" "/v1/config/" None) fresh).2 = mkResponseWriter None ""
  ∧ calls (Config (request "GET" "/v1/config/" None) fresh).2
    = [("ConfigEntry.List", QueryArgs (ConfigEntryQuery.mk "" "" "" ""))]
  ∧ calls (Config (request "GET" "/v1/config/" None) fresh).2 ≠ [].
Proof.
  exact (Config_empty_path_reaches_backend
           (request "GET" "/v1/config/" None) fresh (mkResponseWriter None "") "" ""
           eq_refl eq_refl eq_refl).
Defined.

Lemma decodeConfigBody_agrees_witness :
  decodeConfigBody (request "PUT" "/v1/config" None) = (None, Some EOF)
  ∧ decodeConfigBody
      (request "PUT" "/v1/config"
         (Some (object_text [("Kind", "proxy-defaults"); ("Name", "global")])))
    = decodeConfigEntry
        (list_to_map [("Kind", VString "proxy-defaults"); ("Name", VString "global")])
  ∧ decodeConfigBody (request "PUT" "/v1/config" (Some "")) = (None, Some EOF).
Proof.
  split; [| split].
  - by apply (proj1 (decodeConfigBody_agrees (request "PUT" "/v1/config" None))).
  - apply (proj1 (proj2 (decodeConfigBody_agrees
                           (request "PUT" "/v1/config"
                              (Some (object_text [("Kind", "proxy-defaults");
                                                  ("Name", "global")])))))
             (object_text [("Kind", "proxy-defaults"); ("Name", "global")]));
      by vm_compute.
  - apply (proj2 (proj2 (decodeConfigBody_agrees
                           (request "PUT" "/v1/config" (Some ""))))
             "" ∅ EOF); by vm_compute.
Defined.

End Witnesses.

Module ModelWitnesses.

Import Sample SpecModel SpecModelFacts.

#[local] Open Scope Z_scope.


Lemma resolver_shape :
  registry !! "service-resolver"
  = Some [("DefaultSubset", TString); ("ConnectTimeout", TDuration);
          ("RequestTimeout", TReadableDuration)].
Proof. by vm_compute. Defined.

Lemma resolver_fields_NoDup :
  NoDup (all_fields [("DefaultSubset", TString); ("ConnectTimeout", TDuration);
                     ("RequestTimeout", TReadableDuration)]).*1.
Proof. compute_done. Defined.

Lemma resolver_kind_key_unique (k : string) :
  k ∈ dom resolver_raw → EqualFold k "kind" = true → k = "kind".
Proof.
  revert k.
  change (set_Forall (λ k, EqualFold k "kind" = true → k = "kind") (dom resolver_raw)).
  compute_done.
Defined.




Lemma resolver_no_fold_clash : no_fold_clash resolver_raw.
Proof.
  intros k k' Hk Hk'. revert k' Hk'. revert k Hk.
  change (set_Forall (λ k, set_Forall (λ k', EqualFold k k' = true → k = k')
                             (dom resolver_raw)) (dom resolver_raw)).
  compute_done.
Defined.


End ModelWitnesses.

(** * Further properties of the handlers *)

(** ** Where [SplitN] cuts *)

Module SplitFacts.

Import GoStringsFacts.

(** No index means no slash. *)
Lemma Index_neg_slash_free (s : string) : (Index s "/" < 0)%Z → slash_free s.
Proof.
  unfold slash_free. induction s as [| c s IH]; intros Hneg.
  - cbn. apply not_elem_of_nil.
  - rewrite Index_cons, HasPrefix_slash in Hneg.
    cbn [list_ascii_of_string]. apply not_elem_of_cons.
    destruct (decide (c = "/"%char)) as [-> | Hne].
    + rewrite bool_decide_eq_true_2 in Hneg by done. lia.
    + rewrite bool_decide_eq_false_2 in Hneg by done.
      split; [congruence |]. apply IH.
      destruct (Z.ltb_spec (Index s "/") 0); lia.
Qed.

(** The index is where the first slash is. *)
Lemma Index_cut (s : string) :
  (0 ≤ Index s "/")%Z →
  s = keep (Z.to_nat (Index s "/")) s
        +:+ String "/" (skip (Z.to_nat (Index s "/") + 1) s)
  ∧ slash_free (keep (Z.to_nat (Index s "/")) s).
Proof.
  unfold slash_free. induction s as [| c s IH]; intros Hpos.
  - rewrite Index_nil in Hpos. cbn in Hpos. lia.
  - rewrite Index_cons, HasPrefix_slash in *.
    destruct (decide (c = "/"%char)) as [-> | Hne].
    + rewrite bool_decide_eq_true_2 by done. cbn. split; [done | apply not_elem_of_nil].
    + rewrite bool_decide_eq_false_2 in * by done.
      destruct (Z.ltb_spec (Index s "/") 0) as [Hlt | Hge]; [lia |].
      destruct (IH Hge) as [Heq Hfree].
      replace (Z.to_nat (Index s "/" + 1)) with (S (Z.to_nat (Index s "/"))) by lia.
      cbn [keep skip Nat.add list_ascii_of_string]. rewrite app_cons.
      split; [by rewrite <- Heq |].
      apply not_elem_of_cons. split; [congruence | done].
Qed.

(** [SplitN s "/" 2] either finds no slash and returns [s] whole, or cuts [s]
    at its first slash. *)
Lemma SplitN_slash_2_cases (s : string) :
  (slash_free s ∧ SplitN s "/" 2 = [s])
  ∨ (∃ a b, s = a +:+ String "/" b ∧ slash_free a ∧ SplitN s "/" 2 = [a; b]).
Proof.
  rewrite SplitN_slash_2.
  destruct (Z.ltb_spec (Index s "/") 0) as [Hlt | Hge].
  - left. split; [by apply Index_neg_slash_free | done].
  - right. destruct (Index_cut s Hge) as [Heq Hfree].
    by eexists _, _.
Qed.

Lemma slash_free_app_slash (a b : string) : ¬ slash_free (a +:+ String "/" b).
Proof.
  unfold slash_free. intros Hfree. apply Hfree. clear Hfree.
  induction a as [| c a IH]; [left |]. rewrite app_cons. cbn. by right.
Qed.

End SplitFacts.

(** ** The handlers, request by request *)

Section EndpointMore.

Context `{Agent} `{Json}.

Import GoStringsFacts SplitFacts.

(** ** X1.  The segments of the path are cut at the first slash of the
    suffix and nowhere else: there is one segment exactly when the suffix
    has no slash, and it is the suffix; there are two exactly when the suffix
    is a slash-free kind, a slash, and a name, which may hold further
    slashes or be empty. *)
Theorem pathArgs_cut (req : Request) :
  let suffix := TrimPrefix (URL_Path req) "/v1/config/" in
  (∀ kind, pathArgs req = [kind] ↔ suffix = kind ∧ slash_free kind)
  ∧ (∀ kind name,
       pathArgs req = [kind; name]
       ↔ suffix = kind +:+ String "/" name ∧ slash_free kind).
Proof.
  cbn zeta. unfold pathArgs.
  set (s := TrimPrefix (URL_Path req) "/v1/config/").
  split.
  - intros kind. split.
    + intros Hsplit.
      destruct (SplitN_slash_2_cases s) as [[Hfree Heq] | (a & b & _ & _ & Heq)];
        rewrite Heq in Hsplit; [| done].
      inversion Hsplit; by subst.
    + intros [<- Hfree]. by apply SplitN_no_slash.
  - intros kind name. split.
    + intros Hsplit.
      destruct (SplitN_slash_2_cases s) as [[Hfree Heq] | (a & b & Hs & Hfree & Heq)];
        rewrite Heq in Hsplit; [done |].
      inversion Hsplit; by subst.
    + intros [-> Hfree]. by apply SplitN_first_slash.
Qed.

(** ** X2.  Get by the shape of the path.  After the prefix, a slash-free
    kind alone is listed; a kind, a slash and anything is fetched, and the
    name is all that follows the first slash, further slashes included. *)
Theorem configGet_by_path (req : Request) (w : World) rw dc opts kind :
  parse (resp w) req "" QueryOptions_zero = (rw, (dc, opts), false) →
  slash_free kind →
  (URL_Path req = "/v1/config/" +:+ kind →
     configGet req w =
       (reply_or_error
          (RPC "ConfigEntry.List" (QueryArgs (ConfigEntryQuery.mk kind "" dc opts))
             (IndexedReply IndexedConfigEntries_zero)),
        mkWorld rw (calls w ++ [("ConfigEntry.List",
                                 QueryArgs (ConfigEntryQuery.mk kind "" dc opts))])))
  ∧ (∀ name,
       URL_Path req = "/v1/config/" +:+ (kind +:+ String "/" name) →
       configGet req w =
         (reply_or_error
            (RPC "ConfigEntry.Get" (QueryArgs (ConfigEntryQuery.mk kind name dc opts))
               (IndexedReply IndexedConfigEntries_zero)),
          mkWorld rw (calls w ++ [("ConfigEntry.Get",
                                   QueryArgs (ConfigEntryQuery.mk kind name dc opts))]))).
Proof.
  intros Hparse Hfree. split.
  - intros Hurl. apply (configGet_one_segment req w rw dc opts kind Hparse).
    rewrite (pathArgs_suffix req kind Hurl). by apply SplitN_no_slash.
  - intros name Hurl. apply (configGet_two_segments req w rw dc opts kind name Hparse).
    rewrite (pathArgs_suffix req _ Hurl). by apply SplitN_first_slash.
Qed.

(** ** X3.  What Get does to the world, whatever the request: the response
    is the one [parse] left (the handler itself never writes), and the
    backend sees no call if [parse] was done and else exactly one call, a
    [ConfigEntry.Get] or a [ConfigEntry.List], carrying the datacenter and
    the query options [parse] filled in; the backend's answer is handed
    back as it is. *)
Theorem configGet_one_read (req : Request) (w : World) :
  let '(rw, (dc, opts), done) := parse (resp w) req "" QueryOptions_zero in
  resp (configGet req w).2 = rw
  ∧ if done then configGet req w = ((None, None), mkWorld rw (calls w))
    else ∃ verb q,
        (verb = "ConfigEntry.Get" ∨ verb = "ConfigEntry.List")
        ∧ ConfigEntryQuery.Datacenter q = dc
        ∧ ConfigEntryQuery.Options q = opts
        ∧ configGet req w =
            (reply_or_error
               (RPC verb (QueryArgs q) (IndexedReply IndexedConfigEntries_zero)),
             mkWorld rw (calls w ++ [(verb, QueryArgs q)])).
Proof.
  destruct (parse (resp w) req "" QueryOptions_zero) as [[rw [dc opts]] done] eqn:Hparse.
  destruct done.
  - by rewrite (configGet_parse_done req w rw (dc, opts) Hparse).
  - destruct (pathArgs_length req) as [Hlen | Hlen].
    + destruct (pathArgs req) as [| kind [| ? ?]] eqn:Hpath; try done.
      rewrite (configGet_one_segment req w rw dc opts kind Hparse Hpath).
      split; [done |].
      exists "ConfigEntry.List", (ConfigEntryQuery.mk kind "" dc opts). auto.
    + destruct (pathArgs req) as [| kind [| name [| ? ?]]] eqn:Hpath; try done.
      rewrite (configGet_two_segments req w rw dc opts kind name Hparse Hpath).
      split; [done |].
      exists "ConfigEntry.Get", (ConfigEntryQuery.mk kind name dc opts). auto.
Qed.

(** ** X4.  Delete by the shape of the path.  After the prefix, a slash-free
    kind alone is refused; a kind, a slash and anything goes to the registry
    as that kind and that name, the empty name of a trailing slash and names
    with slashes included, and what the registry answers decides between the
    Delete call and the refusal. *)
Theorem configDelete_by_path (req : Request) (w : World) kind :
  slash_free kind →
  (URL_Path req = "/v1/config/" +:+ kind →
     configDelete req w =
       ((None, None),
        mkWorld (rw_Write "Must provide both a kind and name to delete"
                   (rw_WriteHeader StatusBadRequest (resp w)))
                (calls w)))
  ∧ (∀ name,
       URL_Path req = "/v1/config/" +:+ (kind +:+ String "/" name) →
       configDelete req w =
         match MakeConfigEntry kind name with
         | (_, Some e) =>
             ((None, None),
              mkWorld (rw_Write (Error e) (rw_WriteHeader StatusBadRequest (resp w)))
                      (calls w))
         | (entry, None) =>
             let args := ConfigEntryRequest.mk ConfigEntryOp_zero (parseDC req "")
                           entry (parseToken req "") in
             (reply_or_error (RPC "ConfigEntry.Delete" (RequestArgs args) EmptyReply),
              mkWorld (resp w) (calls w ++ [("ConfigEntry.Delete", RequestArgs args)]))
         end).
Proof.
  intros Hfree. split.
  - intros Hurl. apply configDelete_bad_path.
    rewrite (pathArgs_suffix req kind Hurl), (SplitN_no_slash kind Hfree). cbn. lia.
  - intros name Hurl. apply configDelete_two_segments.
    rewrite (pathArgs_suffix req _ Hurl). by apply SplitN_first_slash.
Qed.

(** ** X5.  Delete tells a refusal through the response and a backend
    failure through its error, never both.  Whatever the request, either
    the handler wrote status 400 and a message, returned nothing and no
    error, and made no call; or it left the response alone, made exactly one
    [ConfigEntry.Delete] call, and returned what the backend answered.  The
    request of that call carries the datacenter and the token of the HTTP
    request and no operation: [Op] is left at its zero value. *)
Theorem configDelete_refuses_or_calls (req : Request) (w : World) :
  (∃ msg,
     configDelete req w =
       ((None, None),
        mkWorld (rw_Write msg (rw_WriteHeader StatusBadRequest (resp w))) (calls w)))
  ∨ (∃ args,
       ConfigEntryRequest.Op args = ConfigEntryOp_zero
       ∧ ConfigEntryRequest.Datacenter args = parseDC req ""
       ∧ ConfigEntryRequest.Token args = parseToken req ""
       ∧ configDelete req w =
           (reply_or_error (RPC "ConfigEntry.Delete" (RequestArgs args) EmptyReply),
            mkWorld (resp w) (calls w ++ [("ConfigEntry.Delete", RequestArgs args)]))).
Proof.
  destruct (pathArgs_length req) as [Hlen | Hlen].
  - left. eexists. apply configDelete_bad_path. lia.
  - destruct (pathArgs req) as [| kind [| name [| ? ?]]] eqn:Hpath; try done.
    rewrite (configDelete_two_segments req w kind name Hpath).
    destruct (MakeConfigEntry kind name) as [entry [e |]].
    + left. by eexists.
    + right. by eexists (ConfigEntryRequest.mk _ _ _ _).
Qed.

(** ** X6.  Apply, whatever the request, never writes the response and
    never returns a value.  Either the body or the mapping failed to decode:
    then it returns a [BadRequestError] whose reason is "Request decoding
    failed: " followed by the text of that error, and the backend is not
    called.  Or both decoded: then it makes exactly one [ConfigEntry.Apply]
    call with the operation Upsert, the datacenter and the token of the
    request and the decoded entry, and returns the backend's error as it
    is. *)
Theorem ConfigApply_rejects_or_sends (req : Request) (w : World) :
  resp (ConfigApply req w).2 = resp w
  ∧ (ConfigApply req w).1.1 = None
  ∧ ((∃ e,
        ((∃ raw, decodeBody req = (raw, Some e))
         ∨ (∃ raw entry, decodeBody req = (raw, None)
                         ∧ decodeConfigEntry raw = (entry, Some e)))
        ∧ ConfigApply req w =
            ((None, Some (BadRequestError ("Request decoding failed: " +:+ Error e))), w))
     ∨ (∃ raw entry,
          decodeBody req = (raw, None)
          ∧ decodeConfigEntry raw = (entry, None)
          ∧ let args := ConfigEntryRequest.mk ConfigEntryUpsert (parseDC req "") entry
                          (parseToken req "") in
            ConfigApply req w =
              ((None, (RPC "ConfigEntry.Apply" (RequestArgs args) EmptyReply).2),
               mkWorld (resp w) (calls w ++ [("ConfigEntry.Apply", RequestArgs args)])))).
Proof.
  destruct (decodeBody req) as [raw [e |]] eqn:Hbody.
  - rewrite (ConfigApply_body_error req w raw e Hbody).
    split; [done |]. split; [done |]. left. exists e. split; [| done]. left. by exists raw.
  - destruct (decodeConfigEntry raw) as [entry [e |]] eqn:Hdec.
    + rewrite (ConfigApply_decode_error req w raw entry e Hbody Hdec).
      split; [done |]. split; [done |]. left. exists e. split; [| done].
      right. by exists raw, entry.
    + rewrite (ConfigApply_sends_entry req w raw entry Hbody Hdec).
      split; [done |]. split; [done |]. right. by exists raw, entry.
Qed.

(** ** X7.  Which verbs a method can reach.  Whatever the request, [Config]
    adds at most one call to the backend: for GET a [ConfigEntry.Get] or a
    [ConfigEntry.List] with query arguments, for DELETE a
    [ConfigEntry.Delete] with a request, for any other method none.  So a GET
    never deletes, and [Config] never applies. *)
Theorem Config_verbs (req : Request) (w : World) :
  ∃ sent,
    calls (Config req w).2 = calls w ++ sent
    ∧ (sent = []
       ∨ (Method req = "GET"
          ∧ ∃ verb q, (verb = "ConfigEntry.Get" ∨ verb = "ConfigEntry.List")
                      ∧ sent = [(verb, QueryArgs q)])
       ∨ (Method req = "DELETE"
          ∧ ∃ r, sent = [("ConfigEntry.Delete", RequestArgs r)])).
Proof.
  unfold Config.
  destruct (String.eqb_spec (Method req) "GET") as [Hget | _].
  - destruct (parse (resp w) req "" QueryOptions_zero) as [[rw [dc opts]] done] eqn:Hparse.
    destruct done.
    + exists []. rewrite (configGet_parse_done req w rw (dc, opts) Hparse).
      cbn. rewrite app_nil_r. auto.
    + destruct (pathArgs_length req) as [Hlen | Hlen].
      * destruct (pathArgs req) as [| kind [| ? ?]] eqn:Hpath; try done.
        rewrite (configGet_one_segment req w rw dc opts kind Hparse Hpath).
        eexists. split; [reflexivity |]. right. left. split; [done |].
        eexists _, _. split; [by right | reflexivity].
      * destruct (pathArgs req) as [| kind [| name [| ? ?]]] eqn:Hpath; try done.
        rewrite (configGet_two_segments req w rw dc opts kind name Hparse Hpath).
        eexists. split; [reflexivity |]. right. left. split; [done |].
        eexists _, _. split; [by left | reflexivity].
  - destruct (String.eqb_spec (Method req) "DELETE") as [Hdel | _].
    + destruct (pathArgs_length req) as [Hlen | Hlen].
      * exists []. rewrite (configDelete_bad_path req w) by lia.
        cbn. rewrite app_nil_r. auto.
      * destruct (pathArgs req) as [| kind [| name [| ? ?]]] eqn:Hpath; try done.
        rewrite (configDelete_two_segments req w kind name Hpath).
        destruct (MakeConfigEntry kind name) as [entry [e |]].
        -- exists []. cbn. rewrite app_nil_r. auto.
        -- eexists. split; [reflexivity |]. right. right. split; [done |].
           by eexists.
    + exists []. cbn. rewrite app_nil_r. auto.
Qed.

(** The body decoder, once the JSON decoder has produced the mapping, runs
    the steps of the mapping decoder. *)
Lemma decodeConfigBody_decoded (req : Request) body raw :
  Body req = Some body → json_Decode body = (raw, None) →
  decodeConfigBody req = decodeConfigEntry raw.
Proof. unfold decodeConfigBody. by intros -> ->. Qed.

(** ** X8.  The body decoder refuses what the mapping decoder refuses.  When
    the JSON of the body is an object without "Kind" and "kind" the result is
    the missing-kind error; when its discriminator is not a string, the
    invalid-kind-type error; when it is a string the registry rejects, the
    registry's error.  In each case no entry comes back. *)
Theorem decodeConfigBody_kind_errors (req : Request) body raw :
  Body req = Some body → json_Decode body = (raw, None) →
  (discriminator raw = None → decodeConfigBody req = (None, Some MissingKind))
  ∧ (∀ v, discriminator raw = Some v → (∀ s, v ≠ VString s) →
       decodeConfigBody req = (None, Some InvalidKindType))
  ∧ (∀ kind entry e,
       discriminator raw = Some (VString kind) →
       MakeConfigEntry kind "" = (entry, Some e) →
       decodeConfigBody req = (None, Some e)).
Proof.
  intros Hbody Hjson.
  rewrite (decodeConfigBody_decoded req body raw Hbody Hjson), decodeConfigEntry_cases.
  split; [| split].
  - by intros ->.
  - intros v -> Hv. destruct v; try done. by destruct (Hv s).
  - intros kind entry e -> Hmake. by rewrite Hmake.
Qed.

(** ** X9.  A path that does not begin with "/v1/config/" is not refused: it
    is split as it stands.  It begins with a slash, so the first segment,
    the kind, is empty and the rest is the name: Get fetches the entry of the
    empty kind under that name. *)
Theorem configGet_without_prefix (req : Request) (w : World) rw dc opts rest :
  parse (resp w) req "" QueryOptions_zero = (rw, (dc, opts), false) →
  URL_Path req = String "/" rest →
  HasPrefix (URL_Path req) "/v1/config/" = false →
  pathArgs req = [""; rest]
  ∧ configGet req w =
      (reply_or_error
         (RPC "ConfigEntry.Get" (QueryArgs (ConfigEntryQuery.mk "" rest dc opts))
            (IndexedReply IndexedConfigEntries_zero)),
       mkWorld rw (calls w ++ [("ConfigEntry.Get",
                                QueryArgs (ConfigEntryQuery.mk "" rest dc opts))])).
Proof.
  intros Hparse Hurl Hno.
  assert (Hpath : pathArgs req = [""; rest]).
  { unfold pathArgs, TrimPrefix. rewrite Hno, Hurl.
    apply (SplitN_first_slash "" rest). unfold slash_free. apply not_elem_of_nil. }
  split; [exact Hpath |].
  exact (configGet_two_segments req w rw dc opts "" rest Hparse Hpath).
Qed.

End EndpointMore.

(** ** The further theorems at sample inputs *)

Module MoreWitnesses.

Import Sample.

Lemma web_slash_free : slash_free "web".
Proof. unfold slash_free. compute_done. Defined.

Lemma proxy_defaults_slash_free : slash_free "proxy-defaults".
Proof. unfold slash_free. compute_done. Defined.

Lemma configGet_by_path_witness :
  calls (configGet (request "GET" "/v1/config/web" None) fresh).2
    = [("ConfigEntry.List", QueryArgs (ConfigEntryQuery.mk "web" "" "" ""))]
  ∧ calls (configGet (request "GET" "/v1/config/web/api/v2" None) fresh).2
    = [("ConfigEntry.Get", QueryArgs (ConfigEntryQuery.mk "web" "api/v2" "" ""))].
Proof.
  split.
  - assert (Hparse : parse (resp fresh) (request "GET" "/v1/config/web" None) ""
                       QueryOptions_zero = (mkResponseWriter None "", ("", ""), false))
      by reflexivity.
    rewrite (proj1 (configGet_by_path (request "GET" "/v1/config/web" None) fresh
                      (mkResponseWriter None "") "" "" "web" Hparse web_slash_free)
               eq_refl).
    reflexivity.
  - assert (Hparse : parse (resp fresh) (request "GET" "/v1/config/web/api/v2" None) ""
                       QueryOptions_zero = (mkResponseWriter None "", ("", ""), false))
      by reflexivity.
    rewrite (proj2 (configGet_by_path (request "GET" "/v1/config/web/api/v2" None) fresh
                      (mkResponseWriter None "") "" "" "web" Hparse web_slash_free)
               "api/v2" eq_refl).
    reflexivity.
Defined.

Lemma configDelete_by_path_witness :
  configDelete (request "DELETE" "/v1/config/proxy-defaults" None) fresh
    = ((None, None),
       mkWorld (mkResponseWriter (Some 400%Z)
                  "Must provide both a kind and name to delete") [])
  ∧ calls (configDelete (request "DELETE" "/v1/config/proxy-defaults/" None) fresh).2
    = [("ConfigEntry.Delete",
        RequestArgs (ConfigEntryRequest.mk "" ""
                       (MakeConfigEntry "proxy-defaults" "").1 ""))].
Proof.
  split.
  - exact (proj1 (configDelete_by_path
                    (request "DELETE" "/v1/config/proxy-defaults" None) fresh
                    "proxy-defaults" proxy_defaults_slash_free) eq_refl).
  - rewrite (proj2 (configDelete_by_path
                      (request "DELETE" "/v1/config/proxy-defaults/" None) fresh
                      "proxy-defaults" proxy_defaults_slash_free) "" eq_refl).
    reflexivity.
Defined.

Lemma decodeConfigBody_kind_errors_witness :
  decodeConfigBody (request "PUT" "/v1/config" (Some (object_text [("Name", "web")])))
    = (None, Some MissingKind)
  ∧ decodeConfigBody (request "PUT" "/v1/config" (Some (object_text [("kind", "web")])))
    = (None, Some (SpecModel.UnknownKind "web")).
Proof.
  split.
  - assert (Hjson : json_Decode (object_text [("Name", "web")])
                    = (list_to_map [("Name", VString "web")], None))
      by (by vm_compute).
    apply (proj1 (decodeConfigBody_kind_errors
                    (request "PUT" "/v1/config" (Some (object_text [("Name", "web")])))
                    _ _ eq_refl Hjson)).
    by vm_compute.
  - assert (Hjson : json_Decode (object_text [("kind", "web")])
                    = (list_to_map [("kind", VString "web")], None))
      by (by vm_compute).
    apply (proj2 (proj2 (decodeConfigBody_kind_errors
                    (request "PUT" "/v1/config" (Some (object_text [("kind", "web")])))
                    _ _ eq_refl Hjson)) "web" None); by vm_compute.
Defined.

Lemma configGet_without_prefix_witness :
  pathArgs (request "GET" "/v1/config" None) = [""; "v1/config"]
  ∧ configGet (request "GET" "/v1/config" None) fresh
    = ((Some (IndexedReply []), None),
       mkWorld (mkResponseWriter None "")
         [("ConfigEntry.Get", QueryArgs (ConfigEntryQuery.mk "" "v1/config" "" ""))]).
Proof.
  assert (Hparse : parse (resp fresh) (request "GET" "/v1/config" None) ""
                     QueryOptions_zero = (mkResponseWriter None "", ("", ""), false))
    by reflexivity.
  exact (configGet_without_prefix (request "GET" "/v1/config" None) fresh
           (mkResponseWriter None "") "" "" "v1/config" Hparse eq_refl eq_refl).
Defined.

End MoreWitnesses.
